(** * CV_101: camera geometry, primitives and pinhole projection

    A shallow embedding of [camera_nd_obj.py] and of the projection in
    [scene_3d_viewer.py], over the real numbers extended with the two
    infinities and NaN.  Arithmetic is exact (no rounding, no signed zero);
    the exceptional values follow numpy's float semantics: [0/0] is NaN,
    [x/0] is an infinity, every comparison with NaN is false. *)

From Stdlib Require Import Reals Lra Lia List Bool Arith ZArith.
Import ListNotations.

Open Scope R_scope.

(** ** Numbers *)

Inductive num : Type :=
| Fin (r : R)
| PInf
| NInf
| NaN.

Definition nneg (a : num) : num :=
  match a with
  | Fin x => Fin (- x)
  | PInf => NInf
  | NInf => PInf
  | NaN => NaN
  end.

Definition nadd (a b : num) : num :=
  match a, b with
  | Fin x, Fin y => Fin (x + y)
  | Fin _, PInf => PInf
  | Fin _, NInf => NInf
  | PInf, Fin _ => PInf
  | NInf, Fin _ => NInf
  | PInf, PInf => PInf
  | NInf, NInf => NInf
  | _, _ => NaN
  end.

Definition nsub (a b : num) : num := nadd a (nneg b).

(** The infinity with the sign of [x], NaN at zero. *)
Definition inf_of_sign (x : R) : num :=
  if Req_dec_T x 0 then NaN
  else if Rlt_dec 0 x then PInf else NInf.

Definition nmul (a b : num) : num :=
  match a, b with
  | Fin x, Fin y => Fin (x * y)
  | Fin x, PInf => inf_of_sign x
  | Fin x, NInf => inf_of_sign (- x)
  | PInf, Fin y => inf_of_sign y
  | NInf, Fin y => inf_of_sign (- y)
  | PInf, PInf => PInf
  | NInf, NInf => PInf
  | PInf, NInf => NInf
  | NInf, PInf => NInf
  | _, _ => NaN
  end.

Definition ndiv (a b : num) : num :=
  match a, b with
  | Fin x, Fin y => if Req_dec_T y 0 then inf_of_sign x else Fin (x / y)
  | Fin _, PInf => Fin 0
  | Fin _, NInf => Fin 0
  | PInf, Fin y => if Rlt_dec y 0 then NInf else PInf
  | NInf, Fin y => if Rlt_dec y 0 then PInf else NInf
  | _, _ => NaN
  end.

Definition nsqrt (a : num) : num :=
  match a with
  | Fin x => if Rlt_dec x 0 then NaN else Fin (sqrt x)
  | PInf => PInf
  | _ => NaN
  end.

(** [a < b] as Python evaluates it. *)
Definition nltb (a b : num) : bool :=
  match a, b with
  | Fin x, Fin y => if Rlt_dec x y then true else false
  | Fin _, PInf => true
  | NInf, Fin _ => true
  | NInf, PInf => true
  | _, _ => false
  end.

Definition ncos (a : num) : num :=
  match a with Fin x => Fin (cos x) | _ => NaN end.

Definition nsin (a : num) : num :=
  match a with Fin x => Fin (sin x) | _ => NaN end.

(** [np.radians] *)
Definition radians (a : num) : num := nmul a (Fin (PI / 180)).

(** ** Arrays of shape (3,) *)

Record vec3 : Type := mkv { v0 : num; v1 : num; v2 : num }.

Definition fin3 (x y z : R) : vec3 := mkv (Fin x) (Fin y) (Fin z).

Definition nan3 : vec3 := mkv NaN NaN NaN.

Definition vneg (a : vec3) : vec3 :=
  mkv (nneg (v0 a)) (nneg (v1 a)) (nneg (v2 a)).

Definition vadd (a b : vec3) : vec3 :=
  mkv (nadd (v0 a) (v0 b)) (nadd (v1 a) (v1 b)) (nadd (v2 a) (v2 b)).

Definition vsub (a b : vec3) : vec3 :=
  mkv (nsub (v0 a) (v0 b)) (nsub (v1 a) (v1 b)) (nsub (v2 a) (v2 b)).

(** scalar [*] array *)
Definition vscale (s : num) (a : vec3) : vec3 :=
  mkv (nmul s (v0 a)) (nmul s (v1 a)) (nmul s (v2 a)).

(** array [/] scalar *)
Definition vdivs (a : vec3) (s : num) : vec3 :=
  mkv (ndiv (v0 a) s) (ndiv (v1 a) s) (ndiv (v2 a) s).

(** [np.dot] *)
Definition vdot (a b : vec3) : num :=
  nadd (nadd (nmul (v0 a) (v0 b)) (nmul (v1 a) (v1 b))) (nmul (v2 a) (v2 b)).

(** [np.cross] *)
Definition vcross (a b : vec3) : vec3 :=
  mkv (nsub (nmul (v1 a) (v2 b)) (nmul (v2 a) (v1 b)))
      (nsub (nmul (v2 a) (v0 b)) (nmul (v0 a) (v2 b)))
      (nsub (nmul (v0 a) (v1 b)) (nmul (v1 a) (v0 b))).

(** [np.linalg.norm] *)
Definition vnorm (a : vec3) : num := nsqrt (vdot a a).

(** ** Exceptions

    [TypeError], [ValueError] and [IndexError] are Python's.  The last
    three kinds are the ones the specification names; no statement of the
    source raises them. *)

Inductive exn : Type :=
| TypeError
| ValueError
| IndexError
| DegenerateDirection
| DegenerateBasis
| InvalidArgument.

Inductive result (A : Type) : Type :=
| Ok (a : A)
| Raise (e : exn).

Arguments Ok {A} a.
Arguments Raise {A} e.

Definition bind {A B : Type} (m : result A) (k : A -> result B) : result B :=
  match m with
  | Ok a => k a
  | Raise e => Raise e
  end.

Notation "x <- m ;; k" := (bind m (fun x => k))
  (at level 61, m at next level, right associativity).

(** ** Camera *)

Record Camera : Type := mkCamera {
  _position : vec3;
  _up : vec3;
  _size : num;
  _direction : option vec3;
  _right : option vec3;
  _vertices : option (list vec3)
}.

(** [Camera.__init__] *)
Definition Camera_init (position up : vec3) (size : num) : Camera :=
  mkCamera position up size None None None.

(** The defaults of [Camera.__init__]. *)
Definition default_position : vec3 := fin3 2 (-4) 2.
Definition default_up : vec3 := fin3 0 0 1.
Definition default_size : num := Fin (3 / 10).
Definition default_camera : Camera :=
  Camera_init default_position default_up default_size.

Definition _update_vertices (c : Camera) : result Camera :=
  match _right c, _direction c with
  | Some r, Some d =>
      let p := _position c in
      let s := _size c in
      let u := _up c in
      Ok (mkCamera p u s (Some d) (Some r)
            (Some [ p;
                    vadd p (vscale s (vsub (vadd (vneg r) d) u));
                    vadd p (vscale s (vsub (vadd r d) u));
                    vadd p (vscale s (vadd (vadd r d) u));
                    vadd p (vscale s (vadd (vadd (vneg r) d) u)) ]))
  | _, _ => Raise TypeError
  end.

Definition _update_camera (c : Camera) : result Camera :=
  match _direction c with
  | None => Ok c
  | Some d =>
      let r := vcross d (_up c) in
      let r := vdivs r (vnorm r) in
      let u := vcross r d in
      let u := vdivs u (vnorm u) in
      _update_vertices
        (mkCamera (_position c) u (_size c) (Some d) (Some r) (_vertices c))
  end.

(** The [position] setter. *)
Definition set_position (c : Camera) (value : vec3) : result Camera :=
  _update_camera
    (mkCamera value (_up c) (_size c) (_direction c) (_right c) (_vertices c)).

(** The [size] setter. *)
Definition set_size (c : Camera) (value : num) : result Camera :=
  _update_camera
    (mkCamera (_position c) (_up c) value (_direction c) (_right c)
       (_vertices c)).

Definition look_at (c : Camera) (target : vec3) : result Camera :=
  let d := vsub target (_position c) in
  let d := vdivs d (vnorm d) in
  _update_camera
    (mkCamera (_position c) (_up c) (_size c) (Some d) (_right c)
       (_vertices c)).

(** ** Finite vectors

    The real-valued counterpart of [vec3], used to state and prove what
    the array operations compute when no exceptional value is involved. *)

Record pt : Type := mkp { px : R; py : R; pz : R }.

Definition emb (a : pt) : vec3 := fin3 (px a) (py a) (pz a).

Definition rzero : pt := mkp 0 0 0.

Definition ropp (a : pt) : pt := mkp (- px a) (- py a) (- pz a).

Definition rsub (a b : pt) : pt :=
  mkp (px a - px b) (py a - py b) (pz a - pz b).

Definition rdot (a b : pt) : R := px a * px b + py a * py b + pz a * pz b.

Definition rcross (a b : pt) : pt :=
  mkp (py a * pz b - pz a * py b)
      (pz a * px b - px a * pz b)
      (px a * py b - py a * px b).

Definition rnorm (a : pt) : R := sqrt (rdot a a).

Definition rdivs (a : pt) (s : R) : pt := mkp (px a / s) (py a / s) (pz a / s).

Definition rnormalize (a : pt) : pt := rdivs a (rnorm a).


(** ** Update operations of the camera *)

Inductive update : Type :=
| SetPosition (value : vec3)
| SetSize (value : num)
| LookAt (target : vec3).

Definition apply_update (c : Camera) (u : update) : result Camera :=
  match u with
  | SetPosition value => set_position c value
  | SetSize value => set_size c value
  | LookAt target => look_at c target
  end.

Fixpoint run (us : list update) (c : Camera) : result Camera :=
  match us with
  | [] => Ok c
  | u :: us' => c' <- apply_update c u ;; run us' c'
  end.

Definition is_setter (u : update) : Prop :=
  match u with
  | LookAt _ => False
  | _ => True
  end.

(** The states a camera can be in: built by the constructor, then changed
    only through its three update operations. *)
Inductive reachable : Camera -> Prop :=
| reach_init (position up : vec3) (size : num) :
    reachable (Camera_init position up size)
| reach_step (c c' : Camera) (u : update) :
    reachable c -> apply_update c u = Ok c' -> reachable c'.

(** ** Properties of a camera state *)

(** A look-at request with finite data, a target away from the camera and a
    viewing direction that is not parallel to the stored up vector. *)
Definition nondegenerate (c : Camera) (target : vec3) : Prop :=
  exists p u t : pt,
    _position c = emb p /\ _up c = emb u /\ target = emb t /\
    t <> p /\ rcross (rsub t p) u <> rzero.


(** The invariant behind [orthonormal]: finite unit [direction] and
    [right], orthogonal, with [up] their cross product. *)
Definition basis (c : Camera) : Prop :=
  exists d r : pt,
    _direction c = Some (emb d) /\ _right c = Some (emb r) /\
    _up c = emb (rcross r d) /\
    rdot d d = 1 /\ rdot r r = 1 /\ rdot r d = 0.

(** One base corner of the frustum, for the signs [sr] and [su]. *)
Definition corner (p : vec3) (s : num) (r d u : vec3) (sr su : R) : vec3 :=
  vadd p (vscale s (vadd (vadd (vscale (Fin sr) r) d) (vscale (Fin su) u))).

(** ** Projection (Scene3DViewer.draw_projected_view) *)

Record mat3 : Type := mkm { row0 : vec3; row1 : vec3; row2 : vec3 }.

(** [np.column_stack] of three arrays of shape (3,) *)
Definition column_stack (a b c : vec3) : mat3 :=
  mkm (mkv (v0 a) (v0 b) (v0 c))
      (mkv (v1 a) (v1 b) (v1 c))
      (mkv (v2 a) (v2 b) (v2 c)).

Definition mneg (m : mat3) : mat3 :=
  mkm (vneg (row0 m)) (vneg (row1 m)) (vneg (row2 m)).

(** matrix [@] vector *)
Definition matvec (m : mat3) (v : vec3) : vec3 :=
  mkv (vdot (row0 m) v) (vdot (row1 m) v) (vdot (row2 m) v).

Definition camera_matrix : mat3 :=
  mkm (fin3 800 0 320) (fin3 0 800 240) (fin3 0 0 1).

Definition rotation_matrix (camera_right camera_up : vec3) : mat3 :=
  column_stack camera_right (vcross camera_up camera_right) camera_up.

Definition translation_vector (rot : mat3) (position : vec3) : vec3 :=
  matvec (mneg rot) position.

(** The body of the loop over the vertices. *)
Definition project_vertex (rot : mat3) (translation vertex : vec3)
  : num * num :=
  let transformed := vadd (matvec rot vertex) translation in
  let z := v2 transformed in
  let z := if nltb z (Fin (1 / 10)) then Fin (1 / 10) else z in
  let x := ndiv (v0 transformed) z in
  let y := ndiv (v1 transformed) z in
  let projected := matvec camera_matrix (mkv x y (Fin 1)) in
  (v0 projected, v1 projected).

(** [projected_points] as [draw_projected_view] computes it; [np.cross]
    rejects the [None] a camera holds before its first [look_at]. *)
Definition projected_points (c : Camera) (vertices : list vec3)
  : result (list (num * num)) :=
  match _right c with
  | None => Raise ValueError
  | Some camera_right =>
      let rot := rotation_matrix camera_right (_up c) in
      let translation := translation_vector rot (_position c) in
      Ok (map (project_vertex rot translation) vertices)
  end.

(** The pipeline in the words of the specification: [R] has the columns
    [right], [up x right] and [up]; [t = -(R p_cam)]; depth is clamped up to
    0.1; the result is [K (x, y, 1)] without its last component. *)
Definition spec_matvec (c0 c1 c2 q : vec3) : vec3 :=
  mkv (nadd (nadd (nmul (v0 c0) (v0 q)) (nmul (v0 c1) (v1 q)))
         (nmul (v0 c2) (v2 q)))
      (nadd (nadd (nmul (v1 c0) (v0 q)) (nmul (v1 c1) (v1 q)))
         (nmul (v1 c2) (v2 q)))
      (nadd (nadd (nmul (v2 c0) (v0 q)) (nmul (v2 c1) (v1 q)))
         (nmul (v2 c2) (v2 q))).

Definition spec_clamp (z : num) : num :=
  if nltb z (Fin (1 / 10)) then Fin (1 / 10) else z.

Definition spec_project (right up cameraPosition p : vec3) : num * num :=
  let mid := vcross up right in
  let t := vneg (spec_matvec right mid up cameraPosition) in
  let transformed := vadd (spec_matvec right mid up p) t in
  let z := spec_clamp (v2 transformed) in
  let x := ndiv (v0 transformed) z in
  let y := ndiv (v1 transformed) z in
  (nadd (nadd (nmul (Fin 800) x) (nmul (Fin 0) y)) (nmul (Fin 320) (Fin 1)),
   nadd (nadd (nmul (Fin 0) x) (nmul (Fin 800) y)) (nmul (Fin 240) (Fin 1))).

(** ** Cube *)

Module Cube.

Record t : Type := mk {
  _origin : vec3;
  _size : num;
  _vertices : option (list vec3);
  _edges : option (list (vec3 * vec3))
}.

Definition edge_indices : list (nat * nat) :=
  [ (0, 1); (0, 2); (0, 4); (1, 3); (1, 5); (2, 3);
    (2, 6); (4, 5); (4, 6); (7, 3); (7, 5); (7, 6) ]%nat.

(** [vertices[i]]; an index past the end raises. *)
Definition getitem (vertices : list vec3) (i : nat) : result vec3 :=
  match nth_error vertices i with
  | Some v => Ok v
  | None => Raise IndexError
  end.

(** The loop that turns index pairs into coordinate pairs. *)
Fixpoint collect_edges (vertices : list vec3) (idx : list (nat * nat))
  : result (list (vec3 * vec3)) :=
  match idx with
  | [] => Ok []
  | (start_idx, end_idx) :: idx' =>
      a <- getitem vertices start_idx ;;
      b <- getitem vertices end_idx ;;
      rest <- collect_edges vertices idx' ;;
      Ok ((a, b) :: rest)
  end.

Definition _update_geometry (c : t) : result t :=
  let o := _origin c in
  let s := _size c in
  let z := Fin 0 in
  let vertices :=
    [ vadd o (mkv z z z); vadd o (mkv s z z);
      vadd o (mkv z s z); vadd o (mkv s s z);
      vadd o (mkv z z s); vadd o (mkv s z s);
      vadd o (mkv z s s); vadd o (mkv s s s) ] in
  edges <- collect_edges vertices edge_indices ;;
  Ok (mk o s (Some vertices) (Some edges)).

(** [Cube.__init__] *)
Definition init (origin : vec3) (size : num) : result t :=
  _update_geometry (mk origin size None None).

(** The [center] property: array plus scalar. *)
Definition center (c : t) : vec3 :=
  let h := ndiv (_size c) (Fin 2) in
  vadd (_origin c) (mkv h h h).




(** The corner [o + (i, j, k)]. *)
Definition corner_at (o : pt) (i j k : R) : pt :=
  mkp (px o + i) (py o + j) (pz o + k).

End Cube.

(** The scene of the viewer: the default camera aimed at the centre of the
    default cube. *)
Definition default_cube_center : vec3 := fin3 (1 / 2) (1 / 2) (1 / 2).

(** A camera at the origin with the default up vector and size. *)
Definition origin_camera : Camera :=
  Camera_init (fin3 0 0 0) default_up default_size.

(** The frustum the camera stores once its direction is defined: five
    vertices, the apex first, then the base corners for the sign pairs
    (-,-), (+,-), (+,+), (-,+) of (right, up). *)
Definition frustum_ok (c : Camera) : Prop :=
  forall d, _direction c = Some d ->
  exists r vs,
    _right c = Some r /\ _vertices c = Some vs /\
    length vs = 5%nat /\ nth_error vs 0 = Some (_position c) /\
    vs = [ _position c;
           corner (_position c) (_size c) r d (_up c) (-1) (-1);
           corner (_position c) (_size c) r d (_up c) 1 (-1);
           corner (_position c) (_size c) r d (_up c) 1 1;
           corner (_position c) (_size c) r d (_up c) (-1) 1 ].

(** The state [look_at] leaves when a normalisation divides zero by zero. *)
Definition nan_camera (p : vec3) (s : num) (d : vec3) : Camera :=
  mkCamera p nan3 s (Some d) (Some nan3) (Some [p; nan3; nan3; nan3; nan3]).

(** The projection on finite data, in real arithmetic. *)
Definition rclamp (z : R) : R := if Rlt_dec z (1 / 10) then 1 / 10 else z.

Definition rtransformed (r u pc q : pt) : pt :=
  let m := rcross u r in
  mkp (px r * (px q - px pc) + px m * (py q - py pc) + px u * (pz q - pz pc))
      (py r * (px q - px pc) + py m * (py q - py pc) + py u * (pz q - pz pc))
      (pz r * (px q - px pc) + pz m * (py q - py pc) + pz u * (pz q - pz pc)).

Definition rpixel (r u pc q : pt) : R * R :=
  let T := rtransformed r u pc q in
  let z := rclamp (pz T) in
  (800 * (px T / z) + 320, 800 * (py T / z) + 240).

(** ** Plane *)

Module Plane.

Definition grid : Type := list (list num).

Record t : Type := mk {
  _center : vec3;
  _rotation : vec3;
  _scale : num;
  _num_points : Z;
  _surface : option (grid * grid * grid)
}.

(** [np.linspace(start, stop, num)]: the samples [i * step + start] with
    [step = (stop - start) / (num - 1)], the last one being [stop]
    itself; a single sample is [start]. *)
Definition linspace (start stop : num) (n : nat) : list num :=
  match n with
  | O => []
  | S O => [start]
  | S m =>
      let step := ndiv (nsub stop start) (Fin (INR m)) in
      map (fun i => nadd (nmul (Fin (INR i)) step) start) (seq 0 m)
      ++ [stop]
  end.

(** [np.meshgrid(x, y)]: both grids have one row per element of [y]. *)
Definition meshgrid (x y : list num) : grid * grid :=
  (map (fun _ => x) y, map (fun yi => map (fun _ => yi) x) y).

Definition zeros_like (g : grid) : grid := map (map (fun _ => Fin 0)) g.

Definition ones_like (l : list num) : list num := map (fun _ => Fin 1) l.

Definition flatten (g : grid) : list num := concat g.

(** Matrices are lists of rows; row [i] of [A @ B] is the combination of
    the rows of [B] with the coefficients of row [i] of [A]. *)
Definition lscale (a : num) (r : list num) : list num := map (nmul a) r.

Definition ladd (r s : list num) : list num :=
  map (fun p => nadd (fst p) (snd p)) (combine r s).

Definition lincomb (coeffs : list num) (rows : list (list num))
  : list num :=
  match combine coeffs rows with
  | [] => []
  | (a, r) :: rest =>
      fold_left (fun acc p => ladd acc (lscale (fst p) (snd p))) rest
        (lscale a r)
  end.

Definition matmul (A B : list (list num)) : list (list num) :=
  map (fun arow => lincomb arow B) A.

Fixpoint chunks (rows cols : nat) (l : list num) : grid :=
  match rows with
  | O => []
  | S k => firstn cols l :: chunks k cols (skipn cols l)
  end.

(** [a.reshape(rows, cols)] *)
Definition reshape (l : list num) (rows cols : nat) : result grid :=
  if (length l =? rows * cols)%nat then Ok (chunks rows cols l)
  else Raise ValueError.

Definition points (scale : num) (n : nat) : list (list num) :=
  let x_plane := linspace (nneg scale) scale n in
  let y_plane := linspace (nneg scale) scale n in
  let X_plane := fst (meshgrid x_plane y_plane) in
  let Y_plane := snd (meshgrid x_plane y_plane) in
  let Z_plane := zeros_like X_plane in
  [ flatten X_plane; flatten Y_plane; flatten Z_plane;
    ones_like (flatten X_plane) ].

Definition Rx (rx : num) : list (list num) :=
  [ [Fin 1; Fin 0; Fin 0; Fin 0];
    [Fin 0; ncos rx; nneg (nsin rx); Fin 0];
    [Fin 0; nsin rx; ncos rx; Fin 0];
    [Fin 0; Fin 0; Fin 0; Fin 1] ].

Definition Ry (ry : num) : list (list num) :=
  [ [ncos ry; Fin 0; nsin ry; Fin 0];
    [Fin 0; Fin 1; Fin 0; Fin 0];
    [nneg (nsin ry); Fin 0; ncos ry; Fin 0];
    [Fin 0; Fin 0; Fin 0; Fin 1] ].

Definition Rz (rz : num) : list (list num) :=
  [ [ncos rz; nneg (nsin rz); Fin 0; Fin 0];
    [nsin rz; ncos rz; Fin 0; Fin 0];
    [Fin 0; Fin 0; Fin 1; Fin 0];
    [Fin 0; Fin 0; Fin 0; Fin 1] ].

Definition T (center : vec3) : list (list num) :=
  [ [Fin 1; Fin 0; Fin 0; v0 center];
    [Fin 0; Fin 1; Fin 0; v1 center];
    [Fin 0; Fin 0; Fin 1; v2 center];
    [Fin 0; Fin 0; Fin 0; Fin 1] ].

Definition transform (center rotation : vec3) : list (list num) :=
  let rx := radians (v0 rotation) in
  let ry := radians (v1 rotation) in
  let rz := radians (v2 rotation) in
  matmul (matmul (matmul (T center) (Rz rz)) (Ry ry)) (Rx rx).

Definition _update_geometry (p : t) : result t :=
  if (_num_points p <? 0)%Z then Raise ValueError
  else
    let n := Z.to_nat (_num_points p) in
    let transformed :=
      matmul (transform (_center p) (_rotation p)) (points (_scale p) n) in
    match transformed with
    | t0 :: t1 :: t2 :: _ =>
        sx <- reshape t0 n n ;;
        sy <- reshape t1 n n ;;
        sz <- reshape t2 n n ;;
        Ok (mk (_center p) (_rotation p) (_scale p) (_num_points p)
              (Some (sx, sy, sz)))
    | _ => Raise IndexError
    end.

(** [Plane.__init__] *)
Definition init (center rotation : vec3) (scale : num) (num_points : Z)
  : result t :=
  _update_geometry (mk center rotation scale num_points None).

(** The samples of [linspace] on finite end points. *)
Definition rlinspace (a b : R) (n : nat) : list R :=
  match n with
  | O => []
  | S O => [a]
  | S m => map (fun i => INR i * ((b - a) / INR m) + a) (seq 0 m) ++ [b]
  end.

(** A coordinate grid spans the interval [[lo, hi]]: every entry lies in
    it and both end points occur. *)
Definition spans (g : grid) (lo hi : R) : Prop :=
  (forall x, In x (concat g) -> exists r, x = Fin r /\ lo <= r <= hi) /\
  In (Fin lo) (concat g) /\ In (Fin hi) (concat g).

(** The [center] setter. *)
Definition set_center (p : t) (value : vec3) : result t :=
  _update_geometry
    (mk value (_rotation p) (_scale p) (_num_points p) (_surface p)).

(** The [rotation] setter. *)
Definition set_rotation (p : t) (value : vec3) : result t :=
  _update_geometry
    (mk (_center p) value (_scale p) (_num_points p) (_surface p)).

(** A grid of [n] rows of [n] entries. *)
Definition square (n : nat) (g : grid) : Prop :=
  length g = n /\ Forall (fun row => length row = n) g.

End Plane.

(** The surface of a plane with zero rotation, finite centre [c] and scale
    [s], on [n] samples per axis: the grids of [x + c.x], [y + c.y] and
    [c.z] over the pairs (y, x) of samples. *)
Definition flat_surface (c : pt) (s : R) (n : nat)
  : Plane.grid * Plane.grid * Plane.grid :=
  let L := Plane.rlinspace (- s) s n in
  let P := list_prod L L in
  (Plane.chunks n n (map (fun p => Fin (snd p + px c)) P),
   Plane.chunks n n (map (fun p => Fin (fst p + py c)) P),
   Plane.chunks n n (map (fun _ => Fin (pz c)) P)).

(** ** Drawing

    What the drawing methods hand to the plotting library: the polylines
    and the markers, as coordinates.  Colours and line styles are left
    out. *)

Inductive artist : Type :=
| Line3D (pts : list vec3)
| Scatter3D (pts : list vec3).

Fixpoint mapM {A B : Type} (f : A -> result B) (l : list A)
  : result (list B) :=
  match l with
  | [] => Ok []
  | a :: l' => b <- f a ;; bs <- mapM f l' ;; Ok (b :: bs)
  end.

(** The loop [for i in range(1, 5)] over the edges from the apex. *)
Definition apex_edges (vertices : list vec3) : result (list artist) :=
  mapM (fun i =>
          a <- Cube.getitem vertices 0 ;;
          b <- Cube.getitem vertices i ;;
          Ok (Line3D [a; b]))
       [1; 2; 3; 4]%nat.

Definition base_indices : list nat := [1; 2; 3; 4; 1]%nat.

(** [Camera.draw] *)
Definition Camera_draw (c : Camera) : result (list artist) :=
  match _vertices c with
  | None => Ok []
  | Some vertices =>
      edges <- apex_edges vertices ;;
      base <- mapM (Cube.getitem vertices) base_indices ;;
      Ok (edges ++ [Line3D base; Scatter3D [_position c]])
  end.

(** [Scene3DViewer.draw_camera]: the marker is [vertices[0]]. *)
Definition draw_camera (c : Camera) : result (list artist) :=
  match _vertices c with
  | None => Ok []
  | Some vertices =>
      edges <- apex_edges vertices ;;
      base <- mapM (Cube.getitem vertices) base_indices ;;
      marker <- Cube.getitem vertices 0 ;;
      Ok (edges ++ [Line3D base; Scatter3D [marker]])
  end.

(** ** Projected edges (Scene3DViewer.draw_projected_view) *)

(** [a == b] on floats. *)
Definition neqb (a b : num) : bool :=
  match a, b with
  | Fin x, Fin y => if Req_dec_T x y then true else false
  | PInf, PInf => true
  | NInf, NInf => true
  | _, _ => false
  end.

(** One entry of [np.all(vertices == v, axis=1)]. *)
Definition row_eqb (w v : vec3) : bool :=
  neqb (v0 w) (v0 v) && neqb (v1 w) (v1 v) && neqb (v2 w) (v2 v).

(** [np.where(mask)[0]]: the indices at which the mask holds. *)
Fixpoint where_from (k : nat) (mask : list bool) : list nat :=
  match mask with
  | [] => []
  | b :: mask' =>
      if b then k :: where_from (S k) mask' else where_from (S k) mask'
  end.

Definition np_where (mask : list bool) : list nat := where_from 0 mask.

(** [np.where(np.all(vertices == v, axis=1))[0][0]] *)
Definition index_of (vertices : list vec3) (v : vec3) : result nat :=
  match np_where (map (fun w => row_eqb w v) vertices) with
  | [] => Raise IndexError
  | i :: _ => Ok i
  end.

Definition getpoint (pts : list (num * num)) (i : nat)
  : result (num * num) :=
  match nth_error pts i with
  | Some q => Ok q
  | None => Raise IndexError
  end.

(** The loop over [cube._edges]: each edge is matched back to vertex
    indices by coordinate comparison and drawn between the projected
    points with these indices. *)
Definition projected_edge (vertices : list vec3) (pts : list (num * num))
  (edge : vec3 * vec3) : result ((num * num) * (num * num)) :=
  start_idx <- index_of vertices (fst edge) ;;
  end_idx <- index_of vertices (snd edge) ;;
  a <- getpoint pts start_idx ;;
  b <- getpoint pts end_idx ;;
  Ok (a, b).

(** The projected points and the projected edges that
    [draw_projected_view] plots.  The rotation matrix is built first, then
    the vertices are projected, then the edges are looked up; iterating
    over a [None] raises [TypeError]. *)
Definition draw_projected_view (c : Camera) (cube : Cube.t)
  : result (list (num * num) * list ((num * num) * (num * num))) :=
  match _right c with
  | None => Raise ValueError
  | Some _ =>
      match Cube._vertices cube with
      | None => Raise TypeError
      | Some vertices =>
          pts <- projected_points c vertices ;;
          match Cube._edges cube with
          | None => Raise TypeError
          | Some edges =>
              segs <- mapM (projected_edge vertices pts) edges ;;
              Ok (pts, segs)
          end
      end
  end.

(** ** The viewer's camera control (Scene3DViewer.__init__ and the slider
    callback [update]) *)


(** ** Rotations on finite data *)

Definition rot_x (a : R) (v : pt) : pt :=
  mkp (px v) (cos a * py v - sin a * pz v) (sin a * py v + cos a * pz v).

Definition rot_y (a : R) (v : pt) : pt :=
  mkp (cos a * px v + sin a * pz v) (py v) (- sin a * px v + cos a * pz v).

Definition rot_z (a : R) (v : pt) : pt :=
  mkp (cos a * px v - sin a * py v) (sin a * px v + cos a * py v) (pz v).

Definition radd (a b : pt) : pt :=
  mkp (px a + px b) (py a + py b) (pz a + pz b).

Definition deg (a : R) : R := a * (PI / 180).

(** The world position of the grid sample (x, y) of a plane. *)
Definition plane_point (c rot : pt) (x y : R) : pt :=
  radd c (rot_z (deg (pz rot)) (rot_y (deg (py rot))
            (rot_x (deg (px rot)) (mkp x y 0)))).

(** ** Aimed cameras *)

(** The camera state with unit direction [d], unit right [r] and up
    [r x d], the vertices being the frustum of these. *)
Definition aimed (p : vec3) (s : num) (d r : pt) : Camera :=
  let u := emb (rcross r d) in
  mkCamera p u s (Some (emb d)) (Some (emb r))
    (Some [ p;
            vadd p (vscale s (vsub (vadd (vneg (emb r)) (emb d)) u));
            vadd p (vscale s (vsub (vadd (emb r) (emb d)) u));
            vadd p (vscale s (vadd (vadd (emb r) (emb d)) u));
            vadd p (vscale s (vadd (vadd (vneg (emb r)) (emb d)) u)) ]).



(** The projected segment of an edge given by vertex indices. *)
Definition edge_by_index (pts : list (num * num)) (e : nat * nat)
  : result ((num * num) * (num * num)) :=
  a <- getpoint pts (fst e) ;;
  b <- getpoint pts (snd e) ;;
  Ok (a, b).

(** The grid samples of a plane, as pairs (y, x) in row-major order. *)
Definition plane_samples (s : R) (n : nat) : list (R * R) :=
  list_prod (Plane.rlinspace (- s) s n) (Plane.rlinspace (- s) s n).

(** ** Assigning arrays of any length

    The operations above are the restriction of the methods to well-shaped
    values: arrays of shape (3,) and scalar sizes.  The position setter
    itself accepts whatever it is given.  Here the camera object holds its
    position as a one-dimensional array of any length, and a call yields
    the object as the call leaves it together with how the call ended, so
    that a call that raises after assigning some fields can be described. *)

Inductive outcome : Type :=
| Returned
| Raised (e : exn).

Record CameraObj : Type := mkObj {
  obj_position : list num;
  obj_up : vec3;
  obj_size : num;
  obj_direction : option vec3;
  obj_right : option vec3;
  obj_vertices : option (list vec3)
}.

Definition to_obj (c : Camera) : CameraObj :=
  mkObj [v0 (_position c); v1 (_position c); v2 (_position c)]
    (_up c) (_size c) (_direction c) (_right c) (_vertices c).

(** [a + b] for [a] of shape (n,) and [b] of shape (3,): the shapes must
    agree, or [a] has one element, which is repeated. *)
Definition broadcast_add (a : list num) (b : vec3) : result vec3 :=
  match a with
  | [x; y; z] => Ok (vadd (mkv x y z) b)
  | [x] => Ok (vadd (mkv x x x) b)
  | _ => Raise ValueError
  end.

(** The first row of [np.array([self.position, ...])]: the rows must have
    the length of the others (a ragged list is refused by numpy 1.24 and
    later). *)
Definition stack_row (a : list num) : result vec3 :=
  match a with
  | [x; y; z] => Ok (mkv x y z)
  | _ => Raise ValueError
  end.

(** [_update_vertices]: the five rows are computed, then stacked; only
    then is [_vertices] assigned. *)
Definition obj_update_vertices (o : CameraObj) : CameraObj * outcome :=
  match obj_right o, obj_direction o with
  | Some r, Some d =>
      let p := obj_position o in
      let s := obj_size o in
      let u := obj_up o in
      let rows :=
        k1 <- broadcast_add p (vscale s (vsub (vadd (vneg r) d) u)) ;;
        k2 <- broadcast_add p (vscale s (vsub (vadd r d) u)) ;;
        k3 <- broadcast_add p (vscale s (vadd (vadd r d) u)) ;;
        k4 <- broadcast_add p (vscale s (vadd (vadd (vneg r) d) u)) ;;
        apex <- stack_row p ;;
        Ok [apex; k1; k2; k3; k4] in
      match rows with
      | Ok vertices =>
          (mkObj p u s (Some d) (Some r) (Some vertices), Returned)
      | Raise e => (o, Raised e)
      end
  | _, _ => (o, Raised TypeError)
  end.

(** [_update_camera]: right and up are assigned before the vertices are
    rebuilt. *)
Definition obj_update_camera (o : CameraObj) : CameraObj * outcome :=
  match obj_direction o with
  | None => (o, Returned)
  | Some d =>
      let r := vcross d (obj_up o) in
      let r := vdivs r (vnorm r) in
      let u := vcross r d in
      let u := vdivs u (vnorm u) in
      obj_update_vertices
        (mkObj (obj_position o) u (obj_size o) (Some d) (Some r)
           (obj_vertices o))
  end.

(** The [position] setter on any one-dimensional array. *)
Definition obj_set_position (o : CameraObj) (value : list num)
  : CameraObj * outcome :=
  obj_update_camera
    (mkObj value (obj_up o) (obj_size o) (obj_direction o) (obj_right o)
       (obj_vertices o)).

(** * Proofs

    ** Algebra of finite vectors *)

Lemma pt_eq (a b : pt) :
  px a = px b -> py a = py b -> pz a = pz b -> a = b.
Proof. destruct a, b; simpl; intros -> -> ->; reflexivity. Qed.

Lemma emb_inj (a b : pt) : emb a = emb b -> a = b.
Proof.
  destruct a, b; unfold emb, fin3; simpl; intros H.
  inversion H; reflexivity.
Qed.

Lemma rdot_self_nonneg (a : pt) : 0 <= rdot a a.
Proof. unfold rdot; nra. Qed.

Lemma rdot_self_zero (a : pt) : rdot a a = 0 -> a = rzero.
Proof.
  unfold rdot; intros H; apply pt_eq; simpl; nra.
Qed.

Lemma rnorm_zero_iff (a : pt) : rnorm a = 0 <-> a = rzero.
Proof.
  split.
  - intros H; apply rdot_self_zero.
    apply sqrt_eq_0; [apply rdot_self_nonneg | exact H].
  - intros ->; unfold rnorm, rdot; simpl.
    replace (0 * 0 + 0 * 0 + 0 * 0) with 0 by ring. apply sqrt_0.
Qed.

Lemma rnorm_sqr (a : pt) : rnorm a * rnorm a = rdot a a.
Proof. apply sqrt_sqrt, rdot_self_nonneg. Qed.

Lemma rnorm_of_unit (a : pt) : rdot a a = 1 -> rnorm a = 1.
Proof. unfold rnorm; intros ->; apply sqrt_1. Qed.

Lemma rdot_normalize (a : pt) :
  a <> rzero -> rdot (rnormalize a) (rnormalize a) = 1.
Proof.
  intros Ha.
  assert (Hn : rnorm a <> 0) by (rewrite rnorm_zero_iff; exact Ha).
  pose proof (rnorm_sqr a) as Hs.
  unfold rnormalize, rdivs, rdot in *; simpl.
  set (n := rnorm a) in *.
  replace (px a / n * (px a / n) + py a / n * (py a / n)
           + pz a / n * (pz a / n))
    with ((px a * px a + py a * py a + pz a * pz a) / (n * n))
    by (field; exact Hn).
  rewrite <- Hs. field. exact Hn.
Qed.

Lemma rnormalize_unit (a : pt) : rdot a a = 1 -> rnormalize a = a.
Proof.
  intros H; unfold rnormalize; rewrite (rnorm_of_unit a H).
  apply pt_eq; simpl; field.
Qed.

Lemma rcross_divs_l (a b : pt) (s : R) :
  s <> 0 -> rcross (rdivs a s) b = rdivs (rcross a b) s.
Proof. intros Hs; apply pt_eq; simpl; field; exact Hs. Qed.

Lemma rdivs_zero_iff (a : pt) (s : R) :
  s <> 0 -> (rdivs a s = rzero <-> a = rzero).
Proof.
  intros Hs; split.
  - intros H.
    assert (H0 : px a / s = 0) by (change (px (rdivs a s) = px rzero); now rewrite H).
    assert (H1 : py a / s = 0) by (change (py (rdivs a s) = py rzero); now rewrite H).
    assert (H2 : pz a / s = 0) by (change (pz (rdivs a s) = pz rzero); now rewrite H).
    apply pt_eq; simpl.
    + replace (px a) with (px a / s * s) by (field; exact Hs). rewrite H0; ring.
    + replace (py a) with (py a / s * s) by (field; exact Hs). rewrite H1; ring.
    + replace (pz a) with (pz a / s * s) by (field; exact Hs). rewrite H2; ring.
  - intros ->; apply pt_eq; simpl; field; exact Hs.
Qed.

Lemma rdot_cross_l (a b : pt) : rdot (rcross a b) a = 0.
Proof. unfold rdot, rcross; simpl; ring. Qed.



Lemma rdot_divs_l (a b : pt) (s : R) :
  s <> 0 -> rdot (rdivs a s) b = rdot a b / s.
Proof. intros Hs; unfold rdot, rdivs; simpl; field; exact Hs. Qed.

(** Lagrange's identity. *)
Lemma rdot_cross_cross (a b : pt) :
  rdot (rcross a b) (rcross a b) = rdot a a * rdot b b - rdot a b * rdot a b.
Proof. unfold rdot, rcross; simpl; ring. Qed.

(** The two triple-product expansions the camera relies on. *)
Lemma rcross_cross_back (d r : pt) :
  rdot d d = 1 -> rdot r d = 0 -> rcross d (rcross r d) = r.
Proof.
  unfold rdot, rcross; simpl; intros Hd Hrd.
  apply pt_eq; simpl.
  - replace (px r) with (px r * (px d * px d + py d * py d + pz d * pz d)
                         - px d * (px r * px d + py r * py d + pz r * pz d))
      at 3 by (rewrite Hd, Hrd; ring). ring.
  - replace (py r) with (py r * (px d * px d + py d * py d + pz d * pz d)
                         - py d * (px r * px d + py r * py d + pz r * pz d))
      at 3 by (rewrite Hd, Hrd; ring). ring.
  - replace (pz r) with (pz r * (px d * px d + py d * py d + pz d * pz d)
                         - pz d * (px r * px d + py r * py d + pz r * pz d))
      at 3 by (rewrite Hd, Hrd; ring). ring.
Qed.

Lemma rcross_up_right (d r : pt) :
  rdot r r = 1 -> rdot r d = 0 -> rcross (rcross r d) r = d.
Proof.
  unfold rdot, rcross; simpl; intros Hr Hrd.
  apply pt_eq; simpl.
  - replace (px d) with (px d * (px r * px r + py r * py r + pz r * pz r)
                         - px r * (px r * px d + py r * py d + pz r * pz d))
      at 3 by (rewrite Hr, Hrd; ring). ring.
  - replace (py d) with (py d * (px r * px r + py r * py r + pz r * pz r)
                         - py r * (px r * px d + py r * py d + pz r * pz d))
      at 3 by (rewrite Hr, Hrd; ring). ring.
  - replace (pz d) with (pz d * (px r * px r + py r * py r + pz r * pz r)
                         - pz r * (px r * px d + py r * py d + pz r * pz d))
      at 3 by (rewrite Hr, Hrd; ring). ring.
Qed.

Lemma rcross_right_up (d r : pt) :
  rdot r r = 1 -> rdot r d = 0 -> rcross r (rcross r d) = ropp d.
Proof.
  intros Hr Hrd.
  rewrite <- (rcross_up_right d r Hr Hrd) at 2.
  apply pt_eq; simpl; ring.
Qed.

(** ** Array operations on finite data *)

Lemma nsqrt_fin (x : R) : 0 <= x -> nsqrt (Fin x) = Fin (sqrt x).
Proof.
  intros Hx; unfold nsqrt.
  destruct (Rlt_dec x 0) as [Hlt | _]; [lra | reflexivity].
Qed.

Lemma ndiv_fin (x y : R) : y <> 0 -> ndiv (Fin x) (Fin y) = Fin (x / y).
Proof.
  intros Hy; unfold ndiv.
  destruct (Req_dec_T y 0) as [H0 | _]; [contradiction | reflexivity].
Qed.

Lemma ndiv_zero_zero : ndiv (Fin 0) (Fin 0) = NaN.
Proof.
  unfold ndiv, inf_of_sign.
  destruct (Req_dec_T 0 0) as [_ | H]; [reflexivity | now elim H].
Qed.

Lemma vsub_emb (a b : pt) : vsub (emb a) (emb b) = emb (rsub a b).
Proof. reflexivity. Qed.

Lemma vcross_emb (a b : pt) : vcross (emb a) (emb b) = emb (rcross a b).
Proof. reflexivity. Qed.

Lemma vdot_emb (a b : pt) : vdot (emb a) (emb b) = Fin (rdot a b).
Proof. reflexivity. Qed.

Lemma vneg_emb (a : pt) : vneg (emb a) = emb (ropp a).
Proof. reflexivity. Qed.

Lemma vnorm_emb (a : pt) : vnorm (emb a) = Fin (rnorm a).
Proof.
  unfold vnorm; rewrite vdot_emb.
  apply nsqrt_fin, rdot_self_nonneg.
Qed.

Lemma vdivs_emb (a : pt) (s : R) :
  s <> 0 -> vdivs (emb a) (Fin s) = emb (rdivs a s).
Proof.
  intros Hs; unfold vdivs, emb, fin3, rdivs; cbn [v0 v1 v2 px py pz].
  rewrite !ndiv_fin by exact Hs. reflexivity.
Qed.

(** [a / np.linalg.norm(a)] away from the origin ... *)
Lemma normalize_emb (a : pt) :
  a <> rzero -> vdivs (emb a) (vnorm (emb a)) = emb (rnormalize a).
Proof.
  intros Ha; rewrite vnorm_emb.
  apply vdivs_emb. rewrite rnorm_zero_iff. exact Ha.
Qed.

(** ... and at the origin, where every component is [0/0]. *)
Lemma normalize_zero : vdivs (emb rzero) (vnorm (emb rzero)) = nan3.
Proof.
  rewrite vnorm_emb.
  replace (rnorm rzero) with 0 by (symmetry; apply rnorm_zero_iff; reflexivity).
  unfold vdivs, emb, rzero, fin3, nan3; cbn [v0 v1 v2 px py pz].
  rewrite ndiv_zero_zero. reflexivity.
Qed.

Lemma unit_nonzero (a : pt) : rdot a a = 1 -> a <> rzero.
Proof.
  intros H ->; unfold rdot, rzero in H; simpl in H; lra.
Qed.

(** ** The camera basis *)

Lemma update_camera_emb (c : Camera) (d u : pt) :
  _direction c = Some (emb d) -> _up c = emb u ->
  rdot d d = 1 -> rcross d u <> rzero ->
  exists c',
    _update_camera c = Ok c' /\ basis c' /\
    _position c' = _position c /\ _size c' = _size c /\
    _direction c' = Some (emb d) /\
    _right c' = Some (emb (rnormalize (rcross d u))) /\
    _up c' = emb (rcross (rnormalize (rcross d u)) d).
Proof.
  intros Hd Hu Hdd Hx.
  set (r := rnormalize (rcross d u)).
  assert (Hrr : rdot r r = 1) by (apply rdot_normalize; exact Hx).
  assert (Hrd : rdot r d = 0).
  { unfold r, rnormalize. rewrite rdot_divs_l.
    - rewrite rdot_cross_l. unfold Rdiv; ring.
    - rewrite rnorm_zero_iff; exact Hx. }
  assert (Hww : rdot (rcross r d) (rcross r d) = 1).
  { rewrite rdot_cross_cross, Hrr, Hdd, Hrd; ring. }
  unfold _update_camera. rewrite Hd, Hu. cbv zeta.
  rewrite vcross_emb, (normalize_emb _ Hx). fold r.
  rewrite vcross_emb, (normalize_emb _ (unit_nonzero _ Hww)).
  rewrite (rnormalize_unit _ Hww).
  unfold _update_vertices; cbn [_right _direction _position _size _up].
  eexists; split; [reflexivity |].
  cbn [_right _direction _position _size _up].
  repeat split; try reflexivity.
  exists d, r; cbn [_right _direction _up]; repeat split; assumption.
Qed.

Lemma rsub_nonzero (t p : pt) : t <> p -> rsub t p <> rzero.
Proof.
  intros Htp H; apply Htp.
  assert (H0 : px t - px p = 0) by (change (px (rsub t p) = px rzero); now rewrite H).
  assert (H1 : py t - py p = 0) by (change (py (rsub t p) = py rzero); now rewrite H).
  assert (H2 : pz t - pz p = 0) by (change (pz (rsub t p) = pz rzero); now rewrite H).
  apply pt_eq; lra.
Qed.

(** What [look_at] stores, in closed form. *)
Lemma look_at_explicit (c : Camera) (p u t : pt) :
  _position c = emb p -> _up c = emb u ->
  t <> p -> rcross (rsub t p) u <> rzero ->
  let d := rnormalize (rsub t p) in
  let r := rnormalize (rcross d u) in
  exists c',
    look_at c (emb t) = Ok c' /\
    _direction c' = Some (emb d) /\ _right c' = Some (emb r) /\
    _up c' = emb (rcross r d) /\
    _position c' = _position c /\ _size c' = _size c /\ basis c'.
Proof.
  intros Hp Hu Htp Hx d r.
  pose proof (rsub_nonzero t p Htp) as Hv.
  assert (Hn : rnorm (rsub t p) <> 0) by (rewrite rnorm_zero_iff; exact Hv).
  assert (Hdd : rdot d d = 1) by (apply rdot_normalize; exact Hv).
  assert (Hdu : rcross d u <> rzero).
  { unfold d, rnormalize. rewrite (rcross_divs_l _ _ _ Hn).
    rewrite (rdivs_zero_iff _ _ Hn). exact Hx. }
  unfold look_at. cbv zeta. rewrite Hp, vsub_emb, (normalize_emb _ Hv). fold d.
  destruct (update_camera_emb
              (mkCamera (emb p) (_up c) (_size c) (Some (emb d)) (_right c)
                 (_vertices c)) d u eq_refl Hu Hdd Hdu)
    as (c' & Hc' & Hb & Hpos & Hsz & Hd' & Hr' & Hu').
  exists c'. repeat split; assumption.
Qed.

Lemma look_at_basis (c : Camera) (target : vec3) :
  nondegenerate c target ->
  exists c',
    look_at c target = Ok c' /\ basis c' /\
    _position c' = _position c /\ _size c' = _size c.
Proof.
  intros (p & u & t & Hp & Hu & -> & Htp & Hx).
  destruct (look_at_explicit c p u t Hp Hu Htp Hx)
    as (c' & H & _ & _ & _ & Hpos & Hsz & Hb).
  exists c'; repeat split; assumption.
Qed.

Lemma update_camera_basis (c : Camera) :
  basis c -> exists c', _update_camera c = Ok c' /\ basis c'.
Proof.
  intros (d & r & Hd & Hr & Hu & Hdd & Hrr & Hrd).
  assert (Hx : rcross d (rcross r d) <> rzero).
  { rewrite (rcross_cross_back d r Hdd Hrd). apply unit_nonzero; exact Hrr. }
  destruct (update_camera_emb c d (rcross r d) Hd Hu Hdd Hx)
    as (c' & Hc' & Hb & _).
  exists c'; split; assumption.
Qed.

Lemma setter_basis (c : Camera) (u : update) :
  is_setter u -> basis c -> exists c', apply_update c u = Ok c' /\ basis c'.
Proof.
  intros Hs (d & r & Hd & Hr & Hu & Hfacts).
  destruct u as [value | value | target]; [ | | destruct Hs ];
    cbn [apply_update]; unfold set_position, set_size;
    apply update_camera_basis; exists d, r;
    cbn [_direction _right _up]; repeat split; tauto.
Qed.

Lemma run_setters_basis (us : list update) :
  Forall is_setter us ->
  forall c, basis c -> exists c', run us c = Ok c' /\ basis c'.
Proof.
  induction 1 as [ | u us Hu _ IH]; intros c Hb.
  - exists c; split; [reflexivity | exact Hb].
  - destruct (setter_basis c u Hu Hb) as (c1 & H1 & Hb1).
    destruct (IH c1 Hb1) as (c2 & H2 & Hb2).
    exists c2; split; [ | exact Hb2].
    cbn [run]. rewrite H1. exact H2.
Qed.




(** ** Handedness *)

Lemma basis_handedness (c : Camera) :
  basis c ->
  exists d r : vec3,
    _direction c = Some d /\ _right c = Some r /\
    vcross r (_up c) = vneg d /\ vcross r d = _up c /\
    vcross (_up c) r = d.
Proof.
  intros (d & r & Hd & Hr & Hu & Hdd & Hrr & Hrd).
  exists (emb d), (emb r). rewrite Hu, !vcross_emb, vneg_emb.
  rewrite (rcross_right_up d r Hrr Hrd), (rcross_up_right d r Hrr Hrd).
  repeat split; assumption.
Qed.

(** What [look_at] stores when the camera at the origin is aimed along the
    y axis. *)
Lemma look_at_y_axis :
  exists c1,
    look_at origin_camera (fin3 0 1 0) = Ok c1 /\
    _direction c1 = Some (fin3 0 1 0) /\
    _right c1 = Some (fin3 1 0 0) /\
    _up c1 = fin3 0 0 1.
Proof.
  assert (Htp : mkp 0 1 0 <> mkp 0 0 0).
  { intros H; apply (f_equal py) in H; cbn [py] in H; lra. }
  assert (Hd : rnormalize (rsub (mkp 0 1 0) (mkp 0 0 0)) = mkp 0 1 0).
  { replace (rsub (mkp 0 1 0) (mkp 0 0 0)) with (mkp 0 1 0)
      by (apply pt_eq; cbn [px py pz rsub]; ring).
    apply rnormalize_unit; unfold rdot; cbn [px py pz]; ring. }
  assert (Hr : rnormalize (rcross (mkp 0 1 0) (mkp 0 0 1)) = mkp 1 0 0).
  { replace (rcross (mkp 0 1 0) (mkp 0 0 1)) with (mkp 1 0 0)
      by (apply pt_eq; cbn [px py pz rcross]; ring).
    apply rnormalize_unit; unfold rdot; cbn [px py pz]; ring. }
  assert (Hx : rcross (rsub (mkp 0 1 0) (mkp 0 0 0)) (mkp 0 0 1) <> rzero).
  { intros H; apply (f_equal px) in H;
      cbn [px py pz rcross rsub rzero] in H; lra. }
  destruct (look_at_explicit origin_camera (mkp 0 0 0) (mkp 0 0 1) (mkp 0 1 0)
              eq_refl eq_refl Htp Hx)
    as (c1 & H1 & Hd1 & Hr1 & Hu1 & _).
  rewrite Hd in Hd1, Hr1, Hu1. rewrite Hr in Hr1, Hu1.
  exists c1. repeat split; try assumption.
  rewrite Hu1. unfold emb, fin3; cbn [px py pz rcross].
  f_equal; f_equal; ring.
Qed.




(** C10: for a basis stored by [look_at] on non-degenerate input, also after
    any following position and size assignments, up x right is exactly
    direction, so the rotation matrix of the projection, with columns
    right, up x right, up, is the matrix with columns right, direction, up. *)
Theorem rotation_matrix_middle_column
  (c : Camera) (target : vec3) (us : list update) :
  nondegenerate c target -> Forall is_setter us ->
  exists c1 c2 d r,
    look_at c target = Ok c1 /\ run us c1 = Ok c2 /\
    _direction c2 = Some d /\ _right c2 = Some r /\
    vcross (_up c2) r = d /\
    rotation_matrix r (_up c2) = column_stack r d (_up c2).
Proof.
  intros Hnd Hus.
  destruct (look_at_basis c target Hnd) as (c1 & H1 & Hb1 & _).
  destruct (run_setters_basis us Hus c1 Hb1) as (c2 & H2 & Hb2).
  destruct (basis_handedness c2 Hb2) as (d & r & Hd & Hr & _ & _ & Hur).
  exists c1, c2, d, r. unfold rotation_matrix. rewrite Hur.
  repeat split; assumption.
Qed.

Lemma rotation_matrix_middle_column_witness :
  nondegenerate default_camera default_cube_center /\
  Forall is_setter [SetPosition (fin3 3 (-3) 1)] /\
  exists c1 c2 d r,
    look_at default_camera default_cube_center = Ok c1 /\
    run [SetPosition (fin3 3 (-3) 1)] c1 = Ok c2 /\
    _direction c2 = Some d /\ _right c2 = Some r /\
    vcross (_up c2) r = d /\
    rotation_matrix r (_up c2) = column_stack r d (_up c2).
Proof.
  assert (Hnd : nondegenerate default_camera default_cube_center).
  { exists (mkp 2 (-4) 2), (mkp 0 0 1), (mkp (1 / 2) (1 / 2) (1 / 2)).
    repeat split.
    - intros H; apply (f_equal px) in H; cbn [px] in H; lra.
    - intros H; apply (f_equal px) in H;
        cbn [px py pz rcross rsub rzero] in H; lra. }
  assert (Hus : Forall is_setter [SetPosition (fin3 3 (-3) 1)]).
  { repeat constructor. }
  split; [exact Hnd | split; [exact Hus | ]].
  exact (rotation_matrix_middle_column default_camera default_cube_center
           [SetPosition (fin3 3 (-3) 1)] Hnd Hus).
Defined.

(** ** Degenerate requests: NaN instead of an error *)

Lemma nsub_self (a : num) : nsub a a = Fin 0 \/ nsub a a = NaN.
Proof.
  destruct a as [x | | | ]; cbn [nsub nadd nneg]; auto.
  left; f_equal; ring.
Qed.

Lemma vcross_nan_l (v : vec3) : vcross nan3 v = nan3.
Proof. destruct v as [[ | | | ] [ | | | ] [ | | | ]]; reflexivity. Qed.

Lemma vadd_nan_r (v : vec3) : vadd v nan3 = nan3.
Proof. destruct v as [[ | | | ] [ | | | ] [ | | | ]]; reflexivity. Qed.

Lemma vadd_nan_l (v : vec3) : vadd nan3 v = nan3.
Proof. destruct v as [[ | | | ] [ | | | ] [ | | | ]]; reflexivity. Qed.

Lemma vsub_nan_r (v : vec3) : vsub v nan3 = nan3.
Proof. destruct v as [[ | | | ] [ | | | ] [ | | | ]]; reflexivity. Qed.

Lemma vscale_nan (s : num) : vscale s nan3 = nan3.
Proof. destruct s; reflexivity. Qed.

Lemma normalize_nan : vdivs nan3 (vnorm nan3) = nan3.
Proof. reflexivity. Qed.

(** A vector whose components are each 0 or NaN normalises to NaN. *)
Lemma normalize_degenerate (v : vec3) :
  (v0 v = Fin 0 \/ v0 v = NaN) ->
  (v1 v = Fin 0 \/ v1 v = NaN) ->
  (v2 v = Fin 0 \/ v2 v = NaN) ->
  vdivs v (vnorm v) = nan3.
Proof.
  destruct v as [a b c]; cbn [v0 v1 v2].
  intros [-> | ->] [-> | ->] [-> | ->];
    try reflexivity.
  exact normalize_zero.
Qed.

Lemma update_camera_nan_right (c : Camera) (d : vec3) :
  _direction c = Some d ->
  vdivs (vcross d (_up c)) (vnorm (vcross d (_up c))) = nan3 ->
  _update_camera c = Ok (nan_camera (_position c) (_size c) d).
Proof.
  intros Hd Hr. unfold _update_camera. rewrite Hd. cbv zeta.
  rewrite Hr, vcross_nan_l, normalize_nan.
  unfold _update_vertices, nan_camera.
  cbn [_right _direction _position _size _up].
  change (vneg nan3) with nan3.
  rewrite !vadd_nan_l, !vsub_nan_r, !vscale_nan, !vadd_nan_r.
  reflexivity.
Qed.

Lemma look_at_self (c : Camera) :
  look_at c (_position c) = Ok (nan_camera (_position c) (_size c) nan3).
Proof.
  unfold look_at. cbv zeta.
  assert (Hd : vdivs (vsub (_position c) (_position c))
                 (vnorm (vsub (_position c) (_position c))) = nan3).
  { apply normalize_degenerate; cbn [vsub v0 v1 v2]; apply nsub_self. }
  rewrite Hd.
  apply (update_camera_nan_right
           (mkCamera (_position c) (_up c) (_size c) (Some nan3) (_right c)
              (_vertices c)) nan3 eq_refl).
  cbn [_up]. rewrite vcross_nan_l. apply normalize_nan.
Qed.

Lemma update_camera_total (c : Camera) : exists c', _update_camera c = Ok c'.
Proof.
  unfold _update_camera. destruct (_direction c) as [d | ].
  - unfold _update_vertices; cbn [_right _direction].
    eexists; reflexivity.
  - exists c; reflexivity.
Qed.

Lemma apply_update_total (c : Camera) (u : update) :
  exists c', apply_update c u = Ok c'.
Proof.
  destruct u; cbn [apply_update];
    unfold set_position, set_size, look_at; apply update_camera_total.
Qed.

(** C4, as stated, fails: aimed at its own position (2,-4,2), the default
    camera does not fail with [DegenerateDirection]; [look_at] returns, and
    direction, right, up and the four base vertices are NaN. *)
Lemma look_at_own_position_returns_nan :
  look_at default_camera default_position
  = Ok (mkCamera default_position nan3 default_size (Some nan3) (Some nan3)
          (Some [default_position; nan3; nan3; nan3; nan3])) /\
  look_at default_camera default_position <> Raise DegenerateDirection.
Proof.
  pose proof (look_at_self default_camera) as H.
  cbn [_position _size default_camera Camera_init] in H.
  split; [exact H | rewrite H; discriminate].
Qed.

(** C4, amended: for every camera, [look_at] with the target equal to the
    camera position raises no error; it returns a camera with the same
    position and size whose direction, right, up and four base vertices
    are NaN in every component, the apex being the position. *)
Theorem look_at_position_is_nan (c : Camera) :
  look_at c (_position c)
  = Ok (mkCamera (_position c) nan3 (_size c) (Some nan3) (Some nan3)
          (Some [_position c; nan3; nan3; nan3; nan3])).
Proof. exact (look_at_self c). Qed.

Lemma look_at_parallel (c : Camera) (p u t : pt) :
  _position c = emb p -> _up c = emb u ->
  t <> p -> rcross (rsub t p) u = rzero ->
  look_at c (emb t)
  = Ok (nan_camera (emb p) (_size c) (emb (rnormalize (rsub t p)))).
Proof.
  intros Hp Hu Htp Hx.
  pose proof (rsub_nonzero t p Htp) as Hv.
  assert (Hn : rnorm (rsub t p) <> 0) by (rewrite rnorm_zero_iff; exact Hv).
  unfold look_at. cbv zeta. rewrite Hp, vsub_emb, (normalize_emb _ Hv).
  apply (update_camera_nan_right
           (mkCamera (emb p) (_up c) (_size c)
              (Some (emb (rnormalize (rsub t p)))) (_right c) (_vertices c))
           _ eq_refl).
  cbn [_up]. rewrite Hu, vcross_emb.
  unfold rnormalize. rewrite (rcross_divs_l _ _ _ Hn), Hx.
  replace (rdivs rzero (rnorm (rsub t p))) with rzero
    by (symmetry; apply rdivs_zero_iff; [exact Hn | reflexivity]).
  exact normalize_zero.
Qed.

(** C5, as stated, fails: with the camera at the origin and up (0,0,1),
    aiming at (0,0,5) gives the direction (0,0,1), parallel to up; [look_at]
    does not fail with [DegenerateBasis], it returns, and at this input
    (where the cross product is exactly zero) right, up and the base
    vertices are NaN. *)
Lemma look_at_along_up_returns_nan :
  look_at origin_camera (fin3 0 0 5)
  = Ok (mkCamera (fin3 0 0 0) nan3 default_size (Some (fin3 0 0 1))
          (Some nan3) (Some [fin3 0 0 0; nan3; nan3; nan3; nan3])) /\
  look_at origin_camera (fin3 0 0 5) <> Raise DegenerateBasis.
Proof.
  assert (Htp : mkp 0 0 5 <> mkp 0 0 0).
  { intros H; apply (f_equal pz) in H; cbn [pz] in H; lra. }
  assert (Hx : rcross (rsub (mkp 0 0 5) (mkp 0 0 0)) (mkp 0 0 1) = rzero).
  { apply pt_eq; cbn [px py pz rcross rsub rzero]; ring. }
  pose proof (look_at_parallel origin_camera (mkp 0 0 0) (mkp 0 0 1)
                (mkp 0 0 5) eq_refl eq_refl Htp Hx) as H.
  assert (Hd : rnormalize (rsub (mkp 0 0 5) (mkp 0 0 0)) = mkp 0 0 1).
  { assert (Hs : rnorm (rsub (mkp 0 0 5) (mkp 0 0 0)) = 5).
    { unfold rnorm, rdot; cbn [px py pz rsub].
      replace ((0 - 0) * (0 - 0) + (0 - 0) * (0 - 0) + (5 - 0) * (5 - 0))
        with (5 * 5) by ring.
      apply sqrt_square; lra. }
    unfold rnormalize; rewrite Hs.
    apply pt_eq; cbn [px py pz rdivs rsub]; field. }
  rewrite Hd in H.
  split; [exact H | ].
  intros E.
  change (look_at origin_camera (emb (mkp 0 0 5)) = Raise DegenerateBasis) in E.
  rewrite H in E. discriminate.
Qed.

(** C5, amended: when position, up and target are finite, the target differs
    from the position and the viewing direction is parallel to up (their
    cross product is zero), [look_at] raises no error, [DegenerateBasis] or
    other; it returns a camera with position and size unchanged whose
    direction is the unit vector towards the target.  The right and up
    vectors it stores are not validated. *)
Theorem look_at_parallel_up_returns (c : Camera) (p u t : pt) :
  _position c = emb p -> _up c = emb u ->
  t <> p -> rcross (rsub t p) u = rzero ->
  exists c1,
    look_at c (emb t) = Ok c1 /\
    look_at c (emb t) <> Raise DegenerateBasis /\
    _position c1 = _position c /\ _size c1 = _size c /\
    _direction c1 = Some (emb (rnormalize (rsub t p))).
Proof.
  intros Hp Hu Htp Hx.
  pose proof (look_at_parallel c p u t Hp Hu Htp Hx) as H.
  eexists. split; [exact H | ].
  split; [rewrite H; discriminate | ].
  cbn [nan_camera _position _size _direction]. rewrite Hp.
  repeat split.
Qed.

Lemma look_at_parallel_up_returns_witness :
  exists c1,
    look_at origin_camera (emb (mkp 0 0 5)) = Ok c1 /\
    look_at origin_camera (emb (mkp 0 0 5)) <> Raise DegenerateBasis /\
    _position c1 = _position origin_camera /\
    _size c1 = _size origin_camera /\
    _direction c1
    = Some (emb (rnormalize (rsub (mkp 0 0 5) (mkp 0 0 0)))).
Proof.
  apply (look_at_parallel_up_returns origin_camera (mkp 0 0 0) (mkp 0 0 1)
           (mkp 0 0 5)).
  - reflexivity.
  - reflexivity.
  - intros H; apply (f_equal pz) in H; cbn [pz] in H; lra.
  - apply pt_eq; cbn [px py pz rcross rsub rzero]; ring.
Defined.

Lemma update_camera_keeps (c c' : Camera) :
  _update_camera c = Ok c' ->
  _position c' = _position c /\ _size c' = _size c /\
  _direction c' = _direction c.
Proof.
  unfold _update_camera. destruct (_direction c) as [d | ] eqn:Hd.
  - unfold _update_vertices; cbn [_right _direction _position _size _up].
    intros H; injection H as <-. cbn [_position _size _direction]. auto.
  - intros H; injection H as <-. auto.
Qed.

(** ** Frustum vertices *)

Lemma inf_of_sign_pos (x : R) : 0 < x -> inf_of_sign x = PInf.
Proof.
  intros Hx; unfold inf_of_sign.
  destruct (Req_dec_T x 0); [lra | ].
  destruct (Rlt_dec 0 x); [reflexivity | lra].
Qed.

Lemma inf_of_sign_neg (x : R) : x < 0 -> inf_of_sign x = NInf.
Proof.
  intros Hx; unfold inf_of_sign.
  destruct (Req_dec_T x 0); [lra | ].
  destruct (Rlt_dec 0 x); [lra | reflexivity].
Qed.

Lemma inf_of_sign_zero : inf_of_sign 0 = NaN.
Proof.
  unfold inf_of_sign. destruct (Req_dec_T 0 0) as [_ | H]; [reflexivity | ].
  now elim H.
Qed.

Lemma nmul_one_l (a : num) : nmul (Fin 1) a = a.
Proof.
  destruct a as [x | | | ]; cbn [nmul]; try reflexivity.
  - f_equal; ring.
  - apply inf_of_sign_pos; lra.
  - apply inf_of_sign_neg; lra.
Qed.

Lemma nmul_minus_one_l (a : num) : nmul (Fin (- 1)) a = nneg a.
Proof.
  destruct a as [x | | | ]; cbn [nmul nneg]; try reflexivity.
  - f_equal; ring.
  - apply inf_of_sign_neg; lra.
  - apply inf_of_sign_pos; lra.
Qed.

Lemma vscale_one (v : vec3) : vscale (Fin 1) v = v.
Proof. destruct v; unfold vscale; cbn [v0 v1 v2]; now rewrite !nmul_one_l. Qed.

Lemma vscale_minus_one (v : vec3) : vscale (Fin (- 1)) v = vneg v.
Proof.
  destruct v; unfold vscale, vneg; cbn [v0 v1 v2].
  now rewrite !nmul_minus_one_l.
Qed.

Lemma vsub_as_add (a b : vec3) : vsub a b = vadd a (vneg b).
Proof. reflexivity. Qed.

Lemma update_camera_frustum (c c' : Camera) :
  _update_camera c = Ok c' -> frustum_ok c'.
Proof.
  unfold _update_camera. destruct (_direction c) as [d | ] eqn:Hd.
  - unfold _update_vertices; cbn [_right _direction _position _size _up].
    intros H; injection H as <-. intros d' Hd'.
    cbn [_direction] in Hd'. injection Hd' as <-.
    cbn [_right _vertices _position _size _up].
    eexists; eexists. split; [reflexivity | ]. split; [reflexivity | ].
    split; [reflexivity | ]. split; [reflexivity | ].
    unfold corner. rewrite !vscale_one, !vscale_minus_one, !vsub_as_add.
    reflexivity.
  - intros H; injection H as <-. intros d' Hd'. congruence.
Qed.

Lemma apply_update_frustum (c c' : Camera) (u : update) :
  apply_update c u = Ok c' -> frustum_ok c'.
Proof.
  destruct u; cbn [apply_update];
    unfold set_position, set_size, look_at; apply update_camera_frustum.
Qed.

Lemma reachable_frustum (c : Camera) : reachable c -> frustum_ok c.
Proof.
  intros [position up size | c0 c' u _ H].
  - intros d Hd. discriminate Hd.
  - exact (apply_update_frustum c0 c' u H).
Qed.

(** C7: in every state a camera can reach with its direction defined, the
    vertex array has exactly 5 entries, the first is the camera position,
    and the other four are position + size * (sr * right + direction
    + su * up) for (sr, su) = (-,-), (+,-), (+,+), (-,+) in this order. *)
Theorem frustum_vertices (c : Camera) (d : vec3) :
  reachable c -> _direction c = Some d ->
  exists r vs,
    _right c = Some r /\ _vertices c = Some vs /\
    length vs = 5%nat /\ nth_error vs 0 = Some (_position c) /\
    vs = [ _position c;
           corner (_position c) (_size c) r d (_up c) (-1) (-1);
           corner (_position c) (_size c) r d (_up c) 1 (-1);
           corner (_position c) (_size c) r d (_up c) 1 1;
           corner (_position c) (_size c) r d (_up c) (-1) 1 ].
Proof.
  intros Hc Hd. exact (reachable_frustum c Hc d Hd).
Qed.

Lemma frustum_vertices_witness :
  exists c d,
    look_at default_camera default_cube_center = Ok c /\
    reachable c /\ _direction c = Some d /\
    exists r vs,
      _right c = Some r /\ _vertices c = Some vs /\
      length vs = 5%nat /\ nth_error vs 0 = Some (_position c) /\
      vs = [ _position c;
             corner (_position c) (_size c) r d (_up c) (-1) (-1);
             corner (_position c) (_size c) r d (_up c) 1 (-1);
             corner (_position c) (_size c) r d (_up c) 1 1;
             corner (_position c) (_size c) r d (_up c) (-1) 1 ].
Proof.
  destruct (apply_update_total default_camera (LookAt default_cube_center))
    as (c & H).
  assert (Hr : reachable c).
  { apply (reach_step default_camera c (LookAt default_cube_center)).
    - apply reach_init.
    - exact H. }
  cbn [apply_update] in H.
  pose proof H as Hk. unfold look_at in Hk.
  apply update_camera_keeps in Hk. destruct Hk as (_ & _ & Hd).
  cbn [_direction] in Hd.
  eexists c, _. split; [exact H | ]. split; [exact Hr | ].
  split; [exact Hd | ].
  exact (frustum_vertices c _ Hr Hd).
Defined.

(** ** Projection *)

Lemma nneg_involutive (a : num) : nneg (nneg a) = a.
Proof. destruct a; cbn [nneg]; try reflexivity. f_equal; ring. Qed.

Lemma inf_of_sign_opp (x : R) : inf_of_sign (- x) = nneg (inf_of_sign x).
Proof.
  destruct (Rtotal_order x 0) as [Hx | [-> | Hx]].
  - rewrite inf_of_sign_pos, inf_of_sign_neg by lra. reflexivity.
  - rewrite Ropp_0, inf_of_sign_zero. reflexivity.
  - rewrite inf_of_sign_neg, inf_of_sign_pos by lra. reflexivity.
Qed.

Lemma nmul_nneg_l (a b : num) : nmul (nneg a) b = nneg (nmul a b).
Proof.
  destruct a as [x | | | ], b as [y | | | ]; cbn [nmul nneg];
    try reflexivity;
    try (rewrite inf_of_sign_opp; try rewrite nneg_involutive; reflexivity).
  f_equal; ring.
Qed.

Lemma nadd_nneg (a b : num) : nadd (nneg a) (nneg b) = nneg (nadd a b).
Proof.
  destruct a as [x | | | ], b as [y | | | ]; cbn [nadd nneg];
    try reflexivity.
  f_equal; ring.
Qed.

Lemma vdot_vneg_l (a b : vec3) : vdot (vneg a) b = nneg (vdot a b).
Proof.
  unfold vdot, vneg; cbn [v0 v1 v2].
  rewrite !nmul_nneg_l, !nadd_nneg. reflexivity.
Qed.

Lemma matvec_column_stack (c0 c1 c2 q : vec3) :
  matvec (column_stack c0 c1 c2) q = spec_matvec c0 c1 c2 q.
Proof. reflexivity. Qed.

Lemma matvec_mneg (m : mat3) (q : vec3) :
  matvec (mneg m) q = vneg (matvec m q).
Proof.
  unfold matvec, mneg, vneg at 4; cbn [row0 row1 row2 v0 v1 v2].
  rewrite !vdot_vneg_l. reflexivity.
Qed.

Lemma project_vertex_spec (right up position p : vec3) :
  project_vertex (rotation_matrix right up)
    (translation_vector (rotation_matrix right up) position) p
  = spec_project right up position p.
Proof.
  unfold project_vertex, translation_vector, rotation_matrix.
  rewrite matvec_mneg, !matvec_column_stack.
  reflexivity.
Qed.

(** C3: once the camera has a right vector, the projected points are, for
    every world point p of the input, the pixel of the specified pipeline:
    rotation matrix with columns right, up x right, up; translation
    -(R position); transformed = R p + t; depth replaced by 0.1 when below
    0.1; x and y divided by that depth; (x, y, 1) multiplied by
    K = [[800,0,320],[0,800,240],[0,0,1]]; first two components kept.
    No error is raised. *)
Theorem projected_points_pipeline
  (c : Camera) (right : vec3) (vertices : list vec3) :
  _right c = Some right ->
  projected_points c vertices
  = Ok (map (spec_project right (_up c) (_position c)) vertices).
Proof.
  intros Hr. unfold projected_points. rewrite Hr. cbv zeta.
  f_equal. apply map_ext. intros p. apply project_vertex_spec.
Qed.

Lemma projected_points_pipeline_witness :
  projected_points
    (mkCamera (fin3 0 (-3) 0) (fin3 0 0 1) default_size
       (Some (fin3 0 1 0)) (Some (fin3 1 0 0)) None)
    [fin3 0 0 0; fin3 1 1 1]
  = Ok (map (spec_project (fin3 1 0 0) (fin3 0 0 1) (fin3 0 (-3) 0))
          [fin3 0 0 0; fin3 1 1 1]).
Proof.
  apply (projected_points_pipeline
           (mkCamera (fin3 0 (-3) 0) (fin3 0 0 1) default_size
              (Some (fin3 0 1 0)) (Some (fin3 1 0 0)) None)
           (fin3 1 0 0) [fin3 0 0 0; fin3 1 1 1]).
  reflexivity.
Defined.

Lemma rclamp_pos (z : R) : 0 < rclamp z.
Proof. unfold rclamp; destruct (Rlt_dec z (1 / 10)); lra. Qed.

Lemma spec_clamp_fin (z : R) : spec_clamp (Fin z) = Fin (rclamp z).
Proof.
  unfold spec_clamp, rclamp, nltb.
  destruct (Rlt_dec z (1 / 10)); reflexivity.
Qed.

(** On finite data the depth divisor is at least 0.1, so the pixel is
    finite: the pipeline is [K (R (p - position) / z)]. *)
Lemma spec_project_finite (r u pc q : pt) :
  spec_project (emb r) (emb u) (emb pc) (emb q)
  = (Fin (fst (rpixel r u pc q)), Fin (snd (rpixel r u pc q))).
Proof.
  unfold spec_project. cbv zeta.
  rewrite vcross_emb.
  set (m := rcross u r).
  assert (HT : vadd (spec_matvec (emb r) (emb m) (emb u) (emb q))
                 (vneg (spec_matvec (emb r) (emb m) (emb u) (emb pc)))
               = emb (rtransformed r u pc q)).
  { unfold rtransformed. fold m. cbv zeta.
    unfold spec_matvec, vadd, vneg, emb, fin3.
    cbn [v0 v1 v2 px py pz nmul nadd nneg].
    f_equal; f_equal; ring. }
  rewrite HT. unfold emb, fin3. cbn [v0 v1 v2].
  rewrite spec_clamp_fin.
  pose proof (rclamp_pos (pz (rtransformed r u pc q))) as Hz.
  rewrite !ndiv_fin by lra.
  unfold rpixel. cbv zeta. cbn [fst snd nmul nadd].
  f_equal; f_equal; ring.
Qed.

(** A worked projection: camera at (0,-3,0) with right (1,0,0) and up
    (0,0,1), world point (1,1,1). *)
Example project_unit_corner :
  spec_project (fin3 1 0 0) (fin3 0 0 1) (fin3 0 (-3) 0) (fin3 1 1 1)
  = (Fin 1120, Fin 3440).
Proof.
  change (spec_project (emb (mkp 1 0 0)) (emb (mkp 0 0 1))
            (emb (mkp 0 (-3) 0)) (emb (mkp 1 1 1)) = (Fin 1120, Fin 3440)).
  rewrite spec_project_finite.
  unfold rpixel, rtransformed. cbv zeta. cbn [px py pz rcross fst snd].
  replace (0 * (1 - 0) + (0 * 0 - 0 * 1) * (1 - -3) + 1 * (1 - 0)) with 1
    by ring.
  unfold rclamp. destruct (Rlt_dec 1 (1 / 10)) as [H | _]; [lra | ].
  f_equal; f_equal; field.
Qed.

(** ** Cube *)

Lemma cube_init_value (o : pt) (s : R) :
  let c := fun i j k => emb (Cube.corner_at o i j k) in
  Cube.init (emb o) (Fin s)
  = Ok (Cube.mk (emb o) (Fin s)
          (Some [ c 0 0 0; c s 0 0; c 0 s 0; c s s 0;
                  c 0 0 s; c s 0 s; c 0 s s; c s s s ])
          (Some [ (c 0 0 0, c s 0 0); (c 0 0 0, c 0 s 0);
                  (c 0 0 0, c 0 0 s); (c s 0 0, c s s 0);
                  (c s 0 0, c s 0 s); (c 0 s 0, c s s 0);
                  (c 0 s 0, c 0 s s); (c 0 0 s, c s 0 s);
                  (c 0 0 s, c 0 s s); (c s s s, c s s 0);
                  (c s s s, c s 0 s); (c s s s, c 0 s s) ])).
Proof. reflexivity. Qed.









(** ** Plane *)

Lemma ladd_map {A : Type} (f g : A -> num) (l : list A) :
  Plane.ladd (map f l) (map g l) = map (fun x => nadd (f x) (g x)) l.
Proof.
  unfold Plane.ladd.
  induction l as [ | x l IH]; cbn [map combine fst snd].
  - reflexivity.
  - now rewrite IH.
Qed.

Lemma lscale_map {A : Type} (a : num) (f : A -> num) (l : list A) :
  Plane.lscale a (map f l) = map (fun x => nmul a (f x)) l.
Proof. unfold Plane.lscale. apply map_map. Qed.

(** One row of a product with a matrix of four rows. *)
Lemma lincomb4_map {A : Type} (a0 a1 a2 a3 : num) (f0 f1 f2 f3 : A -> num)
  (l : list A) :
  Plane.lincomb [a0; a1; a2; a3] [map f0 l; map f1 l; map f2 l; map f3 l]
  = map (fun x =>
           nadd (nadd (nadd (nmul a0 (f0 x)) (nmul a1 (f1 x)))
                   (nmul a2 (f2 x)))
             (nmul a3 (f3 x))) l.
Proof.
  unfold Plane.lincomb. cbn [combine fold_left fst snd].
  rewrite !lscale_map, !ladd_map. reflexivity.
Qed.

Lemma linspace_fin (a b : R) (n : nat) :
  Plane.linspace (Fin a) (Fin b) n = map Fin (Plane.rlinspace a b n).
Proof.
  destruct n as [ | [ | k]]; try reflexivity.
  unfold Plane.linspace, Plane.rlinspace.
  assert (Hm : INR (S k) <> 0) by (apply not_0_INR; discriminate).
  rewrite map_app, map_map. cbn [map]. f_equal.
  apply map_ext. intros i.
  cbn [nsub nneg nadd]. rewrite ndiv_fin by exact Hm.
  reflexivity.
Qed.

Lemma rlinspace_length (a b : R) (n : nat) :
  length (Plane.rlinspace a b n) = n.
Proof.
  destruct n as [ | [ | k]]; try reflexivity.
  unfold Plane.rlinspace.
  rewrite length_app, length_map, length_seq. cbn [length]. lia.
Qed.

Lemma rlinspace_bounds (a b : R) (n : nat) (x : R) :
  a <= b -> In x (Plane.rlinspace a b n) -> a <= x <= b.
Proof.
  intros Hab. destruct n as [ | [ | k]].
  - intros [].
  - intros [<- | []]; lra.
  - unfold Plane.rlinspace. rewrite in_app_iff, in_map_iff.
    intros [(i & <- & Hi) | [<- | []]]; [ | lra].
    apply in_seq in Hi.
    assert (Hm : 0 < INR (S k)) by (apply lt_0_INR; lia).
    assert (Hi0 : 0 <= INR i) by apply pos_INR.
    assert (Him : INR i <= INR (S k)) by (apply le_INR; lia).
    set (m := INR (S k)) in *. set (t := INR i) in *.
    assert (Hq : 0 <= t / m <= 1).
    { split.
      - apply Rmult_le_pos; [exact Hi0 | left; apply Rinv_0_lt_compat; exact Hm].
      - apply (Rmult_le_reg_r m); [exact Hm | ].
        replace (t / m * m) with t by (field; lra). lra. }
    replace (t * ((b - a) / m) + a) with (a + (t / m) * (b - a))
      by (field; lra).
    nra.
Qed.

Lemma rlinspace_first (a b : R) (n : nat) :
  (2 <= n)%nat -> In a (Plane.rlinspace a b n).
Proof.
  destruct n as [ | [ | k]]; try lia. intros _.
  unfold Plane.rlinspace. rewrite in_app_iff, in_map_iff. left.
  exists 0%nat. split.
  - cbn [INR]. ring.
  - apply in_seq. lia.
Qed.

Lemma rlinspace_last (a b : R) (n : nat) :
  (2 <= n)%nat -> In b (Plane.rlinspace a b n).
Proof.
  destruct n as [ | [ | k]]; try lia. intros _.
  unfold Plane.rlinspace. rewrite in_app_iff. right. left. reflexivity.
Qed.

Lemma concat_chunks (rows cols : nat) (l : list num) :
  length l = (rows * cols)%nat -> concat (Plane.chunks rows cols l) = l.
Proof.
  revert l. induction rows as [ | k IH]; intros l Hl.
  - destruct l; [reflexivity | discriminate Hl].
  - cbn [Plane.chunks concat]. rewrite IH.
    + apply firstn_skipn.
    + rewrite length_skipn, Hl. cbn [Nat.mul]. lia.
Qed.

(** The flattened grids of [meshgrid] enumerate the pairs (y, x). *)
Lemma flatten_meshgrid_x (xs ys : list R) :
  Plane.flatten (fst (Plane.meshgrid (map Fin xs) (map Fin ys)))
  = map (fun p => Fin (snd p)) (list_prod ys xs).
Proof.
  unfold Plane.flatten, Plane.meshgrid. cbn [fst].
  induction ys as [ | y ys IH]; cbn [map concat list_prod].
  - reflexivity.
  - rewrite IH, map_app, map_map. reflexivity.
Qed.

Lemma flatten_meshgrid_y (xs ys : list R) :
  Plane.flatten (snd (Plane.meshgrid (map Fin xs) (map Fin ys)))
  = map (fun p => Fin (fst p)) (list_prod ys xs).
Proof.
  unfold Plane.flatten, Plane.meshgrid. cbn [snd].
  induction ys as [ | y ys IH]; cbn [map concat list_prod].
  - reflexivity.
  - rewrite IH, map_app, !map_map. reflexivity.
Qed.

Lemma flatten_zeros_like (xs ys : list R) :
  Plane.flatten
    (Plane.zeros_like (fst (Plane.meshgrid (map Fin xs) (map Fin ys))))
  = map (fun _ => Fin 0) (list_prod ys xs).
Proof.
  unfold Plane.flatten, Plane.zeros_like, Plane.meshgrid. cbn [fst].
  induction ys as [ | y ys IH]; cbn [map concat list_prod].
  - reflexivity.
  - rewrite IH, map_app, !map_map. reflexivity.
Qed.

Lemma points_fin (s : R) (n : nat) :
  let L := Plane.rlinspace (- s) s n in
  let P := list_prod L L in
  Plane.points (Fin s) n
  = [ map (fun p => Fin (snd p)) P; map (fun p => Fin (fst p)) P;
      map (fun _ => Fin 0) P; map (fun _ => Fin 1) P ].
Proof.
  intros L P. unfold Plane.points. cbv zeta. cbn [nneg].
  rewrite linspace_fin. fold L.
  rewrite flatten_zeros_like, flatten_meshgrid_x, flatten_meshgrid_y.
  unfold Plane.ones_like. rewrite map_map. reflexivity.
Qed.

Lemma radians_zero : radians (Fin 0) = Fin 0.
Proof. unfold radians; cbn [nmul]; f_equal; ring. Qed.

Lemma transform_zero_rotation (c : pt) :
  Plane.transform (emb c) (fin3 0 0 0)
  = [ [Fin 1; Fin 0; Fin 0; Fin (px c)];
      [Fin 0; Fin 1; Fin 0; Fin (py c)];
      [Fin 0; Fin 0; Fin 1; Fin (pz c)];
      [Fin 0; Fin 0; Fin 0; Fin 1] ].
Proof.
  unfold Plane.transform. cbv zeta. unfold emb, fin3. cbn [v0 v1 v2].
  rewrite radians_zero.
  unfold Plane.Rx, Plane.Ry, Plane.Rz, Plane.T. cbn [ncos nsin nneg v0 v1 v2].
  rewrite cos_0, sin_0, Ropp_0.
  cbv [Plane.matmul Plane.lincomb Plane.ladd Plane.lscale
       map combine fold_left fst snd nmul nadd].
  repeat f_equal; ring.
Qed.

Lemma plane_surface_flat (c : pt) (s : R) (n : Z) :
  (0 <= n)%Z ->
  Plane.init (emb c) (fin3 0 0 0) (Fin s) n
  = Ok (Plane.mk (emb c) (fin3 0 0 0) (Fin s) n
          (Some (flat_surface c s (Z.to_nat n)))).
Proof.
  intros Hn. unfold Plane.init, Plane._update_geometry.
  cbn [Plane._num_points Plane._center Plane._rotation Plane._scale].
  destruct (Z.ltb_spec n 0) as [Hneg | _]; [lia | ].
  cbv zeta. rewrite transform_zero_rotation, points_fin. cbv zeta.
  set (N := Z.to_nat n).
  set (P := list_prod (Plane.rlinspace (- s) s N) (Plane.rlinspace (- s) s N)).
  assert (HP : length P = (N * N)%nat).
  { unfold P. rewrite length_prod, rlinspace_length. reflexivity. }
  unfold Plane.matmul. cbn [map]. rewrite !lincomb4_map.
  unfold Plane.reshape. rewrite !length_map, HP, Nat.eqb_refl.
  cbn [bind]. unfold flat_surface. cbv zeta. fold N. fold P.
  do 4 f_equal; [f_equal | ]; f_equal; apply map_ext; intros p;
    cbn [nmul nadd]; f_equal; ring.
Qed.

Lemma flat_grid_concat {A : Type} (N : nat) (f : A -> num) (P : list A) :
  length P = (N * N)%nat -> concat (Plane.chunks N N (map f P)) = map f P.
Proof. intros HP. apply concat_chunks. now rewrite length_map. Qed.

Lemma flat_surface_spans (c : pt) (s : R) (N : nat) :
  0 <= s -> (2 <= N)%nat ->
  let '(X, Y, Zs) := flat_surface c s N in
  (forall z, In z (concat Zs) -> z = Fin (pz c)) /\
  Plane.spans X (px c - s) (px c + s) /\
  Plane.spans Y (py c - s) (py c + s).
Proof.
  intros Hs HN. unfold flat_surface. cbv zeta.
  set (L := Plane.rlinspace (- s) s N).
  set (P := list_prod L L).
  assert (HP : length P = (N * N)%nat).
  { unfold P, L. rewrite length_prod, rlinspace_length. reflexivity. }
  assert (HL : forall x, In x L -> - s <= x <= s).
  { intros x Hx. apply (rlinspace_bounds (- s) s N x); [lra | exact Hx]. }
  assert (Hlo : In (- s) L) by (apply rlinspace_first; exact HN).
  assert (Hhi : In s L) by (apply rlinspace_last; exact HN).
  unfold Plane.spans. rewrite !(flat_grid_concat N _ P HP).
  split; [ | split; split].
  - intros z Hz. apply in_map_iff in Hz. destruct Hz as (p & <- & _).
    reflexivity.
  - intros x Hx. apply in_map_iff in Hx. destruct Hx as ([y x'] & <- & Hp).
    apply in_prod_iff in Hp. destruct Hp as (_ & Hx').
    apply HL in Hx'. cbn [snd]. eexists; split; [reflexivity | lra].
  - split; apply in_map_iff.
    + exists (- s, - s). split; [cbn [snd]; f_equal; lra | ].
      apply in_prod_iff; split; assumption.
    + exists (- s, s). split; [cbn [snd]; f_equal; lra | ].
      apply in_prod_iff; split; assumption.
  - intros x Hx. apply in_map_iff in Hx. destruct Hx as ([y x'] & <- & Hp).
    apply in_prod_iff in Hp. destruct Hp as (Hy & _).
    apply HL in Hy. cbn [fst]. eexists; split; [reflexivity | lra].
  - split; apply in_map_iff.
    + exists (- s, - s). split; [cbn [fst]; f_equal; lra | ].
      apply in_prod_iff; split; assumption.
    + exists (s, - s). split; [cbn [fst]; f_equal; lra | ].
      apply in_prod_iff; split; assumption.
Qed.

(** C9, as stated, fails: a plane with centre (0,0,0), rotation (0,0,0),
    scale 5 and a single grid point per axis has the one-point surface
    X = [[-5]], Y = [[-5]], Z = [[0]]; the X coordinates do not reach
    center.x + scale = 5. *)
Lemma single_point_plane_does_not_span :
  exists X Y Zs,
    Plane.init (fin3 0 0 0) (fin3 0 0 0) (Fin 5) 1
    = Ok (Plane.mk (fin3 0 0 0) (fin3 0 0 0) (Fin 5) 1 (Some (X, Y, Zs))) /\
    X = [[Fin (-5)]] /\ Y = [[Fin (-5)]] /\ Zs = [[Fin 0]] /\
    ~ In (Fin (0 + 5)) (concat X).
Proof.
  pose proof (plane_surface_flat (mkp 0 0 0) 5 1 ltac:(lia)) as H.
  change (Z.to_nat 1) with 1%nat in H.
  unfold flat_surface, Plane.rlinspace in H.
  cbn [list_prod flat_map map app Plane.chunks firstn skipn fst snd
       px py pz] in H.
  do 3 eexists. split; [exact H | ].
  split; [repeat f_equal; lra | ].
  split; [repeat f_equal; lra | ].
  split; [reflexivity | ].
  cbn [concat app In]. intros [E | []].
  injection E as E. lra.
Qed.

(** C9, amended: for every plane constructed with finite centre, rotation
    (0,0,0), finite scale >= 0 and at least 2 grid points per axis, every Z
    coordinate of the surface grid equals center.z, every X coordinate lies
    in [center.x - scale, center.x + scale] with both end points attained,
    and every Y coordinate lies in [center.y - scale, center.y + scale]
    with both end points attained. *)
Theorem plane_zero_rotation_surface (c : pt) (s : R) (n : Z) :
  0 <= s -> (2 <= n)%Z ->
  exists X Y Zs,
    Plane.init (emb c) (fin3 0 0 0) (Fin s) n
    = Ok (Plane.mk (emb c) (fin3 0 0 0) (Fin s) n (Some (X, Y, Zs))) /\
    (forall z, In z (concat Zs) -> z = Fin (pz c)) /\
    Plane.spans X (px c - s) (px c + s) /\
    Plane.spans Y (py c - s) (py c + s).
Proof.
  intros Hs Hn.
  pose proof (plane_surface_flat c s n ltac:(lia)) as H.
  pose proof (flat_surface_spans c s (Z.to_nat n) Hs ltac:(lia)) as Hsp.
  destruct (flat_surface c s (Z.to_nat n)) as [[X Y] Zs].
  exists X, Y, Zs. split; [exact H | exact Hsp].
Qed.

Lemma plane_zero_rotation_surface_witness :
  0 <= 5 /\ (2 <= 10)%Z /\
  exists X Y Zs,
    Plane.init (emb (mkp 0 0 0)) (fin3 0 0 0) (Fin 5) 10
    = Ok (Plane.mk (emb (mkp 0 0 0)) (fin3 0 0 0) (Fin 5) 10
            (Some (X, Y, Zs))) /\
    (forall z, In z (concat Zs) -> z = Fin 0) /\
    Plane.spans X (0 - 5) (0 + 5) /\
    Plane.spans Y (0 - 5) (0 + 5).
Proof.
  split; [lra | ]. split; [lia | ].
  apply (plane_zero_rotation_surface (mkp 0 0 0) 5 10); [lra | lia].
Defined.

(** * Further properties of the code

    ** Aiming twice, moving, resizing *)

Lemma update_camera_aimed (c : Camera) (d u : pt) :
  _direction c = Some (emb d) -> _up c = emb u ->
  rdot d d = 1 -> rcross d u <> rzero ->
  _update_camera c
  = Ok (aimed (_position c) (_size c) d (rnormalize (rcross d u))).
Proof.
  intros Hd Hu Hdd Hx.
  set (r := rnormalize (rcross d u)).
  assert (Hrr : rdot r r = 1) by (apply rdot_normalize; exact Hx).
  assert (Hrd : rdot r d = 0).
  { unfold r, rnormalize. rewrite rdot_divs_l.
    - rewrite rdot_cross_l. unfold Rdiv; ring.
    - rewrite rnorm_zero_iff; exact Hx. }
  assert (Hww : rdot (rcross r d) (rcross r d) = 1).
  { rewrite rdot_cross_cross, Hrr, Hdd, Hrd; ring. }
  unfold _update_camera. rewrite Hd, Hu. cbv zeta.
  rewrite vcross_emb, (normalize_emb _ Hx). fold r.
  rewrite vcross_emb, (normalize_emb _ (unit_nonzero _ Hww)).
  rewrite (rnormalize_unit _ Hww).
  reflexivity.
Qed.

Lemma update_camera_of_aimed (d r : pt) (p' : vec3) (s' : num)
  (vs : option (list vec3)) (r0 : option vec3) :
  rdot d d = 1 -> rdot r r = 1 -> rdot r d = 0 ->
  _update_camera (mkCamera p' (emb (rcross r d)) s' (Some (emb d)) r0 vs)
  = Ok (aimed p' s' d r).
Proof.
  intros Hdd Hrr Hrd.
  assert (Hx : rcross d (rcross r d) <> rzero).
  { rewrite (rcross_cross_back d r Hdd Hrd). apply unit_nonzero; exact Hrr. }
  rewrite (update_camera_aimed
             (mkCamera p' (emb (rcross r d)) s' (Some (emb d)) r0 vs)
             d (rcross r d) eq_refl eq_refl Hdd Hx).
  cbn [_position _size].
  rewrite (rcross_cross_back d r Hdd Hrd), (rnormalize_unit r Hrr).
  reflexivity.
Qed.

(** The state a non-degenerate [look_at] returns. *)
Lemma look_at_aimed (c : Camera) (target : vec3) :
  nondegenerate c target ->
  exists (p t d r : pt),
    _position c = emb p /\ target = emb t /\
    d = rnormalize (rsub t p) /\
    rdot d d = 1 /\ rdot r r = 1 /\ rdot r d = 0 /\
    look_at c target = Ok (aimed (emb p) (_size c) d r).
Proof.
  intros (p & u & t & Hp & Hu & -> & Htp & Hx).
  pose proof (rsub_nonzero t p Htp) as Hv.
  assert (Hn : rnorm (rsub t p) <> 0) by (rewrite rnorm_zero_iff; exact Hv).
  set (d := rnormalize (rsub t p)).
  assert (Hdd : rdot d d = 1) by (apply rdot_normalize; exact Hv).
  assert (Hdu : rcross d u <> rzero).
  { unfold d, rnormalize. rewrite (rcross_divs_l _ _ _ Hn).
    rewrite (rdivs_zero_iff _ _ Hn). exact Hx. }
  set (r := rnormalize (rcross d u)).
  assert (Hrr : rdot r r = 1) by (apply rdot_normalize; exact Hdu).
  assert (Hrd : rdot r d = 0).
  { unfold r, rnormalize. rewrite rdot_divs_l.
    - rewrite rdot_cross_l. unfold Rdiv; ring.
    - rewrite rnorm_zero_iff; exact Hdu. }
  exists p, t, d, r. repeat split; try assumption.
  unfold look_at. cbv zeta. rewrite Hp, vsub_emb, (normalize_emb _ Hv). fold d.
  exact (update_camera_aimed
           (mkCamera (emb p) (_up c) (_size c) (Some (emb d)) (_right c)
              (_vertices c)) d u eq_refl Hu Hdd Hdu).
Qed.

Lemma look_at_of_aimed (p t : pt) (s : num) (r : pt) :
  t <> p ->
  let d := rnormalize (rsub t p) in
  rdot r r = 1 -> rdot r d = 0 ->
  look_at (aimed (emb p) s d r) (emb t) = Ok (aimed (emb p) s d r).
Proof.
  intros Htp d Hrr Hrd.
  pose proof (rsub_nonzero t p Htp) as Hv.
  assert (Hdd : rdot d d = 1) by (apply rdot_normalize; exact Hv).
  unfold look_at. cbv zeta.
  cbn [_position _up _size _right _vertices aimed].
  rewrite vsub_emb, (normalize_emb _ Hv). fold d.
  apply update_camera_of_aimed; assumption.
Qed.

(** X1: aiming again at the same target changes nothing: the up vector
    that [look_at] stored is reused, and it gives back the same right and
    up. *)
Theorem look_at_idempotent (c c1 : Camera) (target : vec3) :
  nondegenerate c target ->
  look_at c target = Ok c1 ->
  look_at c1 target = Ok c1.
Proof.
  intros Hnd H1.
  destruct (look_at_aimed c target Hnd)
    as (p & t & d & r & Hp & Ht & Hd & Hdd & Hrr & Hrd & H).
  rewrite H in H1. injection H1 as <-. subst target d.
  assert (Htp : t <> p).
  { intros ->. unfold rdot in Hdd.
    assert (E : rsub p p = rzero) by (apply pt_eq; cbn [px py pz rsub rzero]; ring).
    rewrite E in Hdd. unfold rnormalize, rdivs in Hdd.
    cbn [px py pz rzero] in Hdd.
    replace (rnorm rzero) with 0 in Hdd
      by (symmetry; apply rnorm_zero_iff; reflexivity).
    unfold Rdiv in Hdd. rewrite Rinv_0 in Hdd. lra. }
  exact (look_at_of_aimed p t (_size c) r Htp Hrr Hrd).
Qed.

Lemma look_at_idempotent_witness :
  nondegenerate default_camera default_cube_center /\
  exists c1,
    look_at default_camera default_cube_center = Ok c1 /\
    look_at c1 default_cube_center = Ok c1.
Proof.
  assert (Hnd : nondegenerate default_camera default_cube_center).
  { exists (mkp 2 (-4) 2), (mkp 0 0 1), (mkp (1 / 2) (1 / 2) (1 / 2)).
    repeat split.
    - intros H; apply (f_equal px) in H; cbn [px] in H; lra.
    - intros H; apply (f_equal px) in H;
        cbn [px py pz rcross rsub rzero] in H; lra. }
  split; [exact Hnd | ].
  destruct (apply_update_total default_camera (LookAt default_cube_center))
    as (c1 & H1).
  cbn [apply_update] in H1.
  exists c1. split; [exact H1 | ].
  exact (look_at_idempotent default_camera c1 default_cube_center Hnd H1).
Defined.





(** ** A camera that was never aimed *)

Lemma setter_unaimed (c : Camera) (u : update) :
  is_setter u -> _direction c = None ->
  exists c',
    apply_update c u = Ok c' /\ _direction c' = None /\
    _right c' = _right c /\ _vertices c' = _vertices c /\ _up c' = _up c.
Proof.
  intros Hs Hd.
  destruct u as [value | value | target]; [ | | destruct Hs ];
    cbn [apply_update]; unfold set_position, set_size, _update_camera;
    cbn [_direction]; rewrite Hd; eexists; split; try reflexivity;
    cbn [_direction _right _vertices _up]; auto.
Qed.

(** X4: until the first [look_at], position and size assignments only
    store their value: direction, right and vertices stay undefined, up
    stays the vector given to the constructor, and [draw] plots nothing. *)
Theorem unaimed_camera_has_no_frustum
  (position up : vec3) (size : num) (us : list update) :
  Forall is_setter us ->
  exists c,
    run us (Camera_init position up size) = Ok c /\
    _direction c = None /\ _right c = None /\ _vertices c = None /\
    _up c = up /\ Camera_draw c = Ok [] /\ draw_camera c = Ok [].
Proof.
  intros Hus.
  assert (G : forall c0,
             _direction c0 = None ->
             exists c, run us c0 = Ok c /\ _direction c = None /\
                       _right c = _right c0 /\ _vertices c = _vertices c0 /\
                       _up c = _up c0).
  { induction Hus as [ | u us Hu _ IH]; intros c0 Hd.
    - exists c0. repeat split; assumption.
    - destruct (setter_unaimed c0 u Hu Hd) as (c1 & H1 & Hd1 & Hr1 & Hv1 & Hu1).
      destruct (IH c1 Hd1) as (c2 & H2 & Hd2 & Hr2 & Hv2 & Hu2).
      exists c2. cbn [run]. rewrite H1. cbn [bind].
      repeat split; congruence. }
  destruct (G (Camera_init position up size) eq_refl)
    as (c & Hrun & Hd & Hr & Hv & Hu).
  exists c. cbn [Camera_init _right _vertices _up] in Hr, Hv, Hu.
  unfold Camera_draw, draw_camera. rewrite Hv.
  repeat split; assumption.
Qed.

Lemma unaimed_camera_has_no_frustum_witness :
  Forall is_setter [SetPosition (fin3 1 2 3); SetSize (Fin 2)] /\
  exists c,
    run [SetPosition (fin3 1 2 3); SetSize (Fin 2)]
      (Camera_init default_position default_up default_size) = Ok c /\
    _direction c = None /\ _right c = None /\ _vertices c = None /\
    _up c = default_up /\ Camera_draw c = Ok [] /\ draw_camera c = Ok [].
Proof.
  assert (Hus : Forall is_setter [SetPosition (fin3 1 2 3); SetSize (Fin 2)]).
  { repeat constructor. }
  split; [exact Hus | ].
  exact (unaimed_camera_has_no_frustum default_position default_up
           default_size [SetPosition (fin3 1 2 3); SetSize (Fin 2)] Hus).
Defined.

(** ** NaN is absorbing *)

Lemma vcross_nan_r (v : vec3) : vcross v nan3 = nan3.
Proof. destruct v as [[ | | | ] [ | | | ] [ | | | ]]; reflexivity. Qed.

Lemma apply_update_nan_up (c : Camera) (u : update) :
  _up c = nan3 ->
  (_direction c <> None -> _right c = Some nan3) ->
  exists c',
    apply_update c u = Ok c' /\ _up c' = nan3 /\
    (_direction c' <> None -> _right c' = Some nan3).
Proof.
  intros Hu Hr.
  assert (G : forall c0,
             _up c0 = nan3 ->
             (_direction c0 = None -> _right c0 = _right c) ->
             (_direction c0 = None -> _direction c = None) ->
             exists c', _update_camera c0 = Ok c' /\ _up c' = nan3 /\
                        (_direction c' <> None -> _right c' = Some nan3)).
  { intros c0 Hu0 Hr0 Hd0.
    destruct (_direction c0) as [d | ] eqn:Hd.
    - rewrite (update_camera_nan_right c0 d Hd).
      + eexists; split; [reflexivity | ]. split; reflexivity.
      + rewrite Hu0, vcross_nan_r. apply normalize_nan.
    - unfold _update_camera. rewrite Hd.
      exists c0. split; [reflexivity | ]. split; [exact Hu0 | ].
      intros Hn. now elim Hn. }
  destruct u as [value | value | target]; cbn [apply_update];
    unfold set_position, set_size, look_at; apply G;
    cbn [_up _direction _right]; auto; try discriminate.
Qed.

(** X5: a NaN up vector is never repaired.  Once up is NaN (as after a
    degenerate [look_at]), every sequence of later updates, [look_at] at
    valid targets included, returns a camera whose up is NaN and whose
    right is NaN whenever the direction is defined. *)
Theorem nan_up_is_absorbing (c : Camera) (us : list update) :
  _up c = nan3 ->
  (_direction c <> None -> _right c = Some nan3) ->
  exists c',
    run us c = Ok c' /\ _up c' = nan3 /\
    (_direction c' <> None -> _right c' = Some nan3).
Proof.
  revert c. induction us as [ | u us IH]; intros c Hu Hr.
  - exists c. repeat split; assumption.
  - destruct (apply_update_nan_up c u Hu Hr) as (c1 & H1 & Hu1 & Hr1).
    destruct (IH c1 Hu1 Hr1) as (c2 & H2 & Hu2 & Hr2).
    exists c2. cbn [run]. rewrite H1. cbn [bind].
    repeat split; assumption.
Qed.

Lemma nan_up_is_absorbing_witness :
  exists c0,
    look_at default_camera default_position = Ok c0 /\
    _up c0 = nan3 /\
    (_direction c0 <> None -> _right c0 = Some nan3) /\
    exists c',
      run [SetPosition (fin3 3 3 3); LookAt default_cube_center] c0 = Ok c' /\
      _up c' = nan3 /\
      (_direction c' <> None -> _right c' = Some nan3).
Proof.
  exists (nan_camera default_position default_size nan3).
  split; [exact (look_at_self default_camera) | ].
  split; [reflexivity | ]. split; [intros _; reflexivity | ].
  apply (nan_up_is_absorbing (nan_camera default_position default_size nan3)
           [SetPosition (fin3 3 3 3); LookAt default_cube_center]).
  - reflexivity.
  - intros _; reflexivity.
Defined.

(** ** The frustum as a solid *)








(** ** Drawing the camera *)

Lemma reachable_unaimed (c : Camera) :
  reachable c -> _direction c = None -> _vertices c = None.
Proof.
  induction 1 as [position up size | c c' u Hc IH H]; intros Hd.
  - reflexivity.
  - destruct u as [value | value | target]; cbn [apply_update] in H;
      unfold set_position, set_size, look_at in H;
      pose proof (update_camera_keeps _ _ H) as (_ & _ & Hk);
      cbn [_direction] in Hk; rewrite Hd in Hk; try discriminate Hk;
      unfold _update_camera in H; cbn [_direction] in H;
      rewrite <- Hk in H; injection H as <-; cbn [_vertices];
      apply IH; symmetry; exact Hk.
Qed.

(** X7: for every camera state reachable through the constructor and the
    update operations, [Camera.draw] and the viewer's [draw_camera] plot
    the same geometry; when the direction is defined this is the four
    lines from the camera position to the base corners, one closed
    polyline through the four corners in stored order, and one marker at
    the camera position. *)
Theorem camera_draw_geometry (c : Camera) :
  reachable c ->
  draw_camera c = Camera_draw c /\
  (forall d, _direction c = Some d ->
     exists k1 k2 k3 k4,
       _vertices c = Some [_position c; k1; k2; k3; k4] /\
       Camera_draw c
       = Ok [ Line3D [_position c; k1]; Line3D [_position c; k2];
              Line3D [_position c; k3]; Line3D [_position c; k4];
              Line3D [k1; k2; k3; k4; k1];
              Scatter3D [_position c] ]).
Proof.
  intros Hc.
  destruct (_direction c) as [d | ] eqn:Hd.
  - destruct (reachable_frustum c Hc d Hd)
      as (r & vs & _ & Hv & _ & _ & Hvs).
    subst vs. unfold draw_camera, Camera_draw. rewrite Hv.
    split; [reflexivity | ].
    intros d' _. do 4 eexists. split; reflexivity.
  - pose proof (reachable_unaimed c Hc Hd) as Hv.
    unfold draw_camera, Camera_draw. rewrite Hv.
    split; [reflexivity | ]. intros d' Hd'. discriminate Hd'.
Qed.

Lemma camera_draw_geometry_witness :
  exists c,
    look_at default_camera default_cube_center = Ok c /\
    reachable c /\
    draw_camera c = Camera_draw c /\
    (forall d, _direction c = Some d ->
       exists k1 k2 k3 k4,
         _vertices c = Some [_position c; k1; k2; k3; k4] /\
         Camera_draw c
         = Ok [ Line3D [_position c; k1]; Line3D [_position c; k2];
                Line3D [_position c; k3]; Line3D [_position c; k4];
                Line3D [k1; k2; k3; k4; k1];
                Scatter3D [_position c] ]).
Proof.
  destruct (apply_update_total default_camera (LookAt default_cube_center))
    as (c & H).
  assert (Hr : reachable c).
  { apply (reach_step default_camera c (LookAt default_cube_center)).
    - apply reach_init.
    - exact H. }
  cbn [apply_update] in H.
  exists c. split; [exact H | ]. split; [exact Hr | ].
  exact (camera_draw_geometry c Hr).
Defined.

(** ** Cube: centre and edge lookup *)

(** X8: the centre of a cube with finite origin and size s is at the same
    distance from all eight vertices, squared distance 3 (s/2)^2. *)
Theorem cube_center_equidistant (o : pt) (s : R) :
  exists cube vs m,
    Cube.init (emb o) (Fin s) = Ok cube /\
    Cube._vertices cube = Some vs /\
    Cube.center cube = emb m /\
    forall v, In v vs ->
      exists q, v = emb q /\
                rdot (rsub q m) (rsub q m) = 3 * (s / 2) * (s / 2).
Proof.
  eexists; exists
    [ emb (Cube.corner_at o 0 0 0); emb (Cube.corner_at o s 0 0);
      emb (Cube.corner_at o 0 s 0); emb (Cube.corner_at o s s 0);
      emb (Cube.corner_at o 0 0 s); emb (Cube.corner_at o s 0 s);
      emb (Cube.corner_at o 0 s s); emb (Cube.corner_at o s s s) ],
    (mkp (px o + s / 2) (py o + s / 2) (pz o + s / 2)).
  split; [apply cube_init_value | ].
  split; [reflexivity | ].
  split.
  - unfold Cube.center; cbn [Cube._size Cube._origin].
    rewrite ndiv_fin by lra. reflexivity.
  - intros v Hv. cbn [In] in Hv.
    repeat (destruct Hv as [<- | Hv];
            [ eexists; split; [reflexivity | ];
              unfold rdot; cbn [px py pz rsub Cube.corner_at]; field | ]).
    destruct Hv.
Qed.

Lemma neqb_refl_fin (x : R) : neqb (Fin x) (Fin x) = true.
Proof.
  unfold neqb. destruct (Req_dec_T x x) as [_ | H]; [reflexivity | now elim H].
Qed.

Lemma row_eqb_refl (a : pt) : row_eqb (emb a) (emb a) = true.
Proof.
  unfold row_eqb, emb, fin3; cbn [v0 v1 v2].
  now rewrite !neqb_refl_fin.
Qed.

Lemma row_eqb_neq (a b : pt) : a <> b -> row_eqb (emb a) (emb b) = false.
Proof.
  intros Hab. unfold row_eqb, emb, fin3, neqb; cbn [v0 v1 v2].
  destruct (Req_dec_T (px a) (px b)) as [Hx | _]; [ | reflexivity].
  destruct (Req_dec_T (py a) (py b)) as [Hy | _]; [ | reflexivity].
  destruct (Req_dec_T (pz a) (pz b)) as [Hz | _]; [ | reflexivity].
  elim Hab. apply pt_eq; assumption.
Qed.

Ltac corner_neq_tac :=
  let E := fresh "E" in
  intros E;
  first
    [ apply (f_equal px) in E; cbn [px Cube.corner_at] in E; lra
    | apply (f_equal py) in E; cbn [py Cube.corner_at] in E; lra
    | apply (f_equal pz) in E; cbn [pz Cube.corner_at] in E; lra ].

Ltac row_tac :=
  repeat match goal with
    | |- context [row_eqb (emb ?x) (emb ?x)] => rewrite (row_eqb_refl x)
    | |- context [row_eqb (emb ?x) (emb ?y)] =>
        rewrite (row_eqb_neq x y) by corner_neq_tac
    end.

(** With a non-zero size the eight corners are distinct, and looking a
    corner up by its coordinates gives back its index. *)
Lemma index_of_corner (o : pt) (s : R) :
  s <> 0 ->
  let c := fun i j k => emb (Cube.corner_at o i j k) in
  let vs := [ c 0 0 0; c s 0 0; c 0 s 0; c s s 0;
              c 0 0 s; c s 0 s; c 0 s s; c s s s ] in
  index_of vs (c 0 0 0) = Ok 0%nat /\ index_of vs (c s 0 0) = Ok 1%nat /\
  index_of vs (c 0 s 0) = Ok 2%nat /\ index_of vs (c s s 0) = Ok 3%nat /\
  index_of vs (c 0 0 s) = Ok 4%nat /\ index_of vs (c s 0 s) = Ok 5%nat /\
  index_of vs (c 0 s s) = Ok 6%nat /\ index_of vs (c s s s) = Ok 7%nat.
Proof.
  intros Hs c vs. unfold vs, c, index_of, np_where. cbn [map].
  repeat split; row_tac; reflexivity.
Qed.

(** X9: for a cube with finite origin and non-zero size and a camera that
    has a right vector, [draw_projected_view] returns eight projected
    points and twelve projected edges, and the coordinate lookup recovers
    the vertex indices: the edges are exactly the segments between the
    projected points named by [edge_indices]. *)
Theorem projected_edges_follow_indices
  (c : Camera) (right : vec3) (o : pt) (s : R) :
  s <> 0 -> _right c = Some right ->
  exists cube pts segs,
    Cube.init (emb o) (Fin s) = Ok cube /\
    draw_projected_view c cube = Ok (pts, segs) /\
    length pts = 8%nat /\ length segs = 12%nat /\
    mapM (edge_by_index pts) Cube.edge_indices = Ok segs.
Proof.
  intros Hs Hr.
  destruct (index_of_corner o s Hs)
    as (I0 & I1 & I2 & I3 & I4 & I5 & I6 & I7).
  cbv zeta in I0, I1, I2, I3, I4, I5, I6, I7.
  eexists; eexists; eexists.
  split; [apply cube_init_value | ].
  unfold draw_projected_view, projected_points. rewrite Hr. cbv zeta.
  cbn [Cube._vertices Cube._edges].
  set (f := project_vertex _ _).
  cbn [map bind mapM]. unfold projected_edge. cbn [fst snd].
  rewrite I0, I1, I2, I3, I4, I5, I6, I7.
  cbn [bind getpoint nth_error].
  split; [reflexivity | ].
  split; [reflexivity | ]. split; reflexivity.
Qed.

Lemma projected_edges_follow_indices_witness :
  1 <> 0 /\
  exists cube pts segs,
    Cube.init (emb (mkp 0 0 0)) (Fin 1) = Ok cube /\
    draw_projected_view
      (mkCamera (fin3 0 (-3) 0) (fin3 0 0 1) default_size
         (Some (fin3 0 1 0)) (Some (fin3 1 0 0)) None) cube
    = Ok (pts, segs) /\
    length pts = 8%nat /\ length segs = 12%nat /\
    mapM (edge_by_index pts) Cube.edge_indices = Ok segs.
Proof.
  split; [lra | ].
  apply (projected_edges_follow_indices
           (mkCamera (fin3 0 (-3) 0) (fin3 0 0 1) default_size
              (Some (fin3 0 1 0)) (Some (fin3 1 0 0)) None)
           (fin3 1 0 0) (mkp 0 0 0) 1).
  - lra.
  - reflexivity.
Defined.

(** X10: with size 0 all eight vertices coincide, every coordinate lookup
    answers index 0, and each of the twelve projected edges degenerates to
    the segment from the first projected point to itself. *)
Theorem projected_edges_collapse_at_size_zero
  (c : Camera) (right : vec3) (o : pt) :
  _right c = Some right ->
  exists cube pts segs p0,
    Cube.init (emb o) (Fin 0) = Ok cube /\
    draw_projected_view c cube = Ok (pts, segs) /\
    nth_error pts 0 = Some p0 /\ length segs = 12%nat /\
    forall seg, In seg segs -> seg = (p0, p0).
Proof.
  intros Hr.
  assert (I0 : forall l,
             index_of (emb (Cube.corner_at o 0 0 0) :: l)
               (emb (Cube.corner_at o 0 0 0)) = Ok 0%nat).
  { intros l. unfold index_of, np_where. cbn [map where_from].
    rewrite row_eqb_refl. reflexivity. }
  eexists; eexists; eexists; eexists.
  split; [apply cube_init_value | ].
  unfold draw_projected_view, projected_points. rewrite Hr. cbv zeta.
  cbn [Cube._vertices Cube._edges].
  set (f := project_vertex _ _).
  cbn [map bind mapM]. unfold projected_edge. cbn [fst snd].
  rewrite !I0.
  cbn [bind getpoint nth_error].
  split; [reflexivity | ].
  split; [reflexivity | ]. split; [reflexivity | ].
  intros seg Hseg. cbn [In] in Hseg.
  repeat (destruct Hseg as [<- | Hseg]; [reflexivity | ]).
  destruct Hseg.
Qed.

Lemma projected_edges_collapse_at_size_zero_witness :
  exists cube pts segs p0,
    Cube.init (emb (mkp 0 0 0)) (Fin 0) = Ok cube /\
    draw_projected_view
      (mkCamera (fin3 0 (-3) 0) (fin3 0 0 1) default_size
         (Some (fin3 0 1 0)) (Some (fin3 1 0 0)) None) cube
    = Ok (pts, segs) /\
    nth_error pts 0 = Some p0 /\ length segs = 12%nat /\
    forall seg, In seg segs -> seg = (p0, p0).
Proof.
  apply (projected_edges_collapse_at_size_zero
           (mkCamera (fin3 0 (-3) 0) (fin3 0 0 1) default_size
              (Some (fin3 0 1 0)) (Some (fin3 1 0 0)) None)
           (fin3 1 0 0) (mkp 0 0 0)).
  reflexivity.
Defined.

Lemma nadd_nan_l (b : num) : nadd NaN b = NaN.
Proof. destruct b; reflexivity. Qed.

Lemma neqb_nan_r (a : num) : neqb a NaN = false.
Proof. destruct a; reflexivity. Qed.

Lemma row_eqb_nan (w v : vec3) :
  v0 v = NaN \/ v1 v = NaN \/ v2 v = NaN -> row_eqb w v = false.
Proof.
  unfold row_eqb. intros [H | [H | H]]; rewrite H, neqb_nan_r.
  - reflexivity.
  - apply andb_false_intro1, andb_false_intro2; reflexivity.
  - apply andb_false_intro2; reflexivity.
Qed.

Lemma where_from_none {A : Type} (k : nat) (l : list A) :
  where_from k (map (fun _ => false) l) = [].
Proof.
  revert k. induction l as [ | a l IH]; intros k; cbn [map where_from].
  - reflexivity.
  - apply IH.
Qed.

Lemma index_of_nan (vertices : list vec3) (v : vec3) :
  v0 v = NaN \/ v1 v = NaN \/ v2 v = NaN ->
  index_of vertices v = Raise IndexError.
Proof.
  intros Hv. unfold index_of, np_where.
  rewrite (map_ext (fun w => row_eqb w v) (fun _ => false))
    by (intros w; apply row_eqb_nan; exact Hv).
  rewrite where_from_none. reflexivity.
Qed.

(** X11: NaN never equals itself, so the coordinate lookup cannot find a
    vertex that has a NaN coordinate.  A cube whose origin has a NaN
    component is constructed without complaint, of any size, and
    [draw_projected_view] then raises [IndexError] at the first edge. *)
Theorem projected_edges_nan_origin
  (c : Camera) (right origin : vec3) (size : num) :
  _right c = Some right ->
  v0 origin = NaN \/ v1 origin = NaN \/ v2 origin = NaN ->
  exists cube,
    Cube.init origin size = Ok cube /\
    draw_projected_view c cube = Raise IndexError.
Proof.
  intros Hr Ho.
  eexists. split; [reflexivity | ].
  unfold draw_projected_view, projected_points. rewrite Hr. cbv zeta.
  cbn [Cube._vertices Cube._edges].
  cbn [bind mapM]. unfold projected_edge at 1. cbn [fst].
  rewrite index_of_nan; [reflexivity | ].
  unfold vadd; cbn [v0 v1 v2 Cube._origin].
  destruct Ho as [H | [H | H]]; rewrite H, nadd_nan_l; auto.
Qed.

Lemma projected_edges_nan_origin_witness :
  exists cube,
    Cube.init (mkv NaN (Fin 0) (Fin 0)) (Fin 1) = Ok cube /\
    draw_projected_view
      (mkCamera (fin3 0 (-3) 0) (fin3 0 0 1) default_size
         (Some (fin3 0 1 0)) (Some (fin3 1 0 0)) None) cube
    = Raise IndexError.
Proof.
  apply (projected_edges_nan_origin
           (mkCamera (fin3 0 (-3) 0) (fin3 0 0 1) default_size
              (Some (fin3 0 1 0)) (Some (fin3 1 0 0)) None)
           (fin3 1 0 0) (mkv NaN (Fin 0) (Fin 0)) (Fin 1)).
  - reflexivity.
  - left; reflexivity.
Defined.

(** ** Plane: shape of the surface *)

Lemma linspace_length (a b : num) (n : nat) :
  length (Plane.linspace a b n) = n.
Proof.
  destruct n as [ | [ | k]]; try reflexivity.
  unfold Plane.linspace. cbv zeta.
  rewrite length_app, length_map, length_seq. cbn [length]. lia.
Qed.

Lemma concat_const_length {A B : Type} (x : list A) (y : list B) :
  length (concat (map (fun _ => x) y)) = (length y * length x)%nat.
Proof.
  induction y as [ | b y IH]; cbn [map concat length].
  - reflexivity.
  - rewrite length_app, IH. cbn [Nat.mul]. reflexivity.
Qed.

Lemma concat_rows_length {A : Type} (f : A -> num) (x y : list A) :
  length (concat (map (fun yi => map (fun _ => f yi) x) y))
  = (length y * length x)%nat.
Proof.
  induction y as [ | b y IH]; cbn [map concat length].
  - reflexivity.
  - rewrite length_app, length_map, IH. cbn [Nat.mul]. reflexivity.
Qed.

Lemma concat_map_map_length {A B : Type} (f : A -> B) (g : list (list A)) :
  length (concat (map (map f) g)) = length (concat g).
Proof.
  induction g as [ | r g IH]; cbn [map concat].
  - reflexivity.
  - rewrite !length_app, length_map, IH. reflexivity.
Qed.

Lemma points_shape (scale : num) (n : nat) :
  exists r0 r1 r2 r3,
    Plane.points scale n = [r0; r1; r2; r3] /\
    length r0 = (n * n)%nat /\ length r1 = (n * n)%nat /\
    length r2 = (n * n)%nat /\ length r3 = (n * n)%nat.
Proof.
  unfold Plane.points. cbv zeta. do 4 eexists. split; [reflexivity | ].
  unfold Plane.flatten, Plane.ones_like, Plane.zeros_like, Plane.meshgrid.
  cbn [fst snd].
  rewrite length_map, concat_map_map_length, !concat_const_length.
  rewrite (concat_rows_length (fun yi => yi)).
  rewrite !linspace_length. repeat split; reflexivity.
Qed.

Lemma ladd_length (r s : list num) :
  length (Plane.ladd r s) = Nat.min (length r) (length s).
Proof. unfold Plane.ladd. rewrite length_map. apply length_combine. Qed.

Lemma lscale_length (a : num) (r : list num) :
  length (Plane.lscale a r) = length r.
Proof. unfold Plane.lscale. apply length_map. Qed.

Lemma lincomb4_length (a0 a1 a2 a3 : num) (r0 r1 r2 r3 : list num) (L : nat) :
  length r0 = L -> length r1 = L -> length r2 = L -> length r3 = L ->
  length (Plane.lincomb [a0; a1; a2; a3] [r0; r1; r2; r3]) = L.
Proof.
  intros H0 H1 H2 H3. unfold Plane.lincomb.
  cbn [combine fold_left fst snd].
  rewrite !ladd_length, !lscale_length, H0, H1, H2, H3.
  rewrite !Nat.min_id. reflexivity.
Qed.

(** The transform is a 4 x 4 matrix whatever the centre and the angles. *)
Lemma transform_shape (center rotation : vec3) :
  exists a0 a1 a2 a3 b0 b1 b2 b3 c0 c1 c2 c3 d0 d1 d2 d3,
    Plane.transform center rotation
    = [ [a0; a1; a2; a3]; [b0; b1; b2; b3];
        [c0; c1; c2; c3]; [d0; d1; d2; d3] ].
Proof.
  unfold Plane.transform, Plane.T, Plane.Rx, Plane.Ry, Plane.Rz,
    Plane.matmul, Plane.lincomb, Plane.ladd, Plane.lscale.
  cbv zeta. cbn [map combine fold_left fst snd].
  do 16 eexists. reflexivity.
Qed.

Lemma chunks_square (n : nat) (l : list num) :
  length l = (n * n)%nat -> Plane.square n (Plane.chunks n n l).
Proof.
  intros Hl. unfold Plane.square.
  assert (G : forall rows l0,
             length l0 = (rows * n)%nat ->
             length (Plane.chunks rows n l0) = rows /\
             Forall (fun row => length row = n) (Plane.chunks rows n l0)).
  { induction rows as [ | k IH]; intros l0 H0; cbn [Plane.chunks].
    - split; [reflexivity | constructor].
    - destruct (IH (skipn n l0)) as (Hlen & Hall).
      + rewrite length_skipn, H0. cbn [Nat.mul]. lia.
      + split; [cbn [length]; now rewrite Hlen | ].
        constructor; [ | exact Hall].
        rewrite length_firstn, H0. cbn [Nat.mul]. lia. }
  apply G. exact Hl.
Qed.

(** X12: construction of a plane never fails on a non-negative grid
    resolution n, whatever the centre, the angles and the scale (NaN and
    infinities included), and the surface always consists of three grids
    of n rows of n entries; n = 0 gives three empty grids. *)
Theorem plane_surface_shape
  (center rotation : vec3) (scale : num) (n : Z) :
  (0 <= n)%Z ->
  exists X Y Zs,
    Plane.init center rotation scale n
    = Ok (Plane.mk center rotation scale n (Some (X, Y, Zs))) /\
    Plane.square (Z.to_nat n) X /\ Plane.square (Z.to_nat n) Y /\
    Plane.square (Z.to_nat n) Zs.
Proof.
  intros Hn. unfold Plane.init, Plane._update_geometry.
  cbn [Plane._num_points Plane._center Plane._rotation Plane._scale].
  destruct (Z.ltb_spec n 0) as [Hneg | _]; [lia | ].
  cbv zeta. set (N := Z.to_nat n).
  destruct (transform_shape center rotation)
    as (a0 & a1 & a2 & a3 & b0 & b1 & b2 & b3 & c0 & c1 & c2 & c3
        & d0 & d1 & d2 & d3 & Ht).
  destruct (points_shape scale N) as (r0 & r1 & r2 & r3 & Hp & L0 & L1 & L2 & L3).
  rewrite Ht, Hp. unfold Plane.matmul. cbn [map].
  pose proof (lincomb4_length a0 a1 a2 a3 r0 r1 r2 r3 _ L0 L1 L2 L3) as Ha.
  pose proof (lincomb4_length b0 b1 b2 b3 r0 r1 r2 r3 _ L0 L1 L2 L3) as Hb.
  pose proof (lincomb4_length c0 c1 c2 c3 r0 r1 r2 r3 _ L0 L1 L2 L3) as Hc.
  unfold Plane.reshape. rewrite Ha, Hb, Hc, Nat.eqb_refl. cbn [bind].
  do 3 eexists. split; [reflexivity | ].
  repeat split; apply chunks_square; assumption.
Qed.

Lemma plane_surface_shape_witness :
  (0 <= 0)%Z /\
  exists X Y Zs,
    Plane.init (mkv NaN (Fin 0) PInf) (fin3 30 45 60) (Fin 5) 0
    = Ok (Plane.mk (mkv NaN (Fin 0) PInf) (fin3 30 45 60) (Fin 5) 0
            (Some (X, Y, Zs))) /\
    Plane.square (Z.to_nat 0) X /\ Plane.square (Z.to_nat 0) Y /\
    Plane.square (Z.to_nat 0) Zs.
Proof.
  split; [lia | ].
  apply (plane_surface_shape (mkv NaN (Fin 0) PInf) (fin3 30 45 60) (Fin 5) 0).
  lia.
Defined.

(** ** Plane: the rotation is rigid *)

Lemma sin_cos_sqr (a : R) : sin a * sin a + cos a * cos a = 1.
Proof. exact (sin2_cos2 a). Qed.

Lemma rot_x_norm (a : R) (v : pt) : rdot (rot_x a v) (rot_x a v) = rdot v v.
Proof.
  unfold rdot, rot_x; cbn [px py pz].
  transitivity (px v * px v
                + (sin a * sin a + cos a * cos a)
                  * (py v * py v + pz v * pz v)); [ring | ].
  rewrite sin_cos_sqr. ring.
Qed.

Lemma rot_y_norm (a : R) (v : pt) : rdot (rot_y a v) (rot_y a v) = rdot v v.
Proof.
  unfold rdot, rot_y; cbn [px py pz].
  transitivity ((sin a * sin a + cos a * cos a)
                * (px v * px v + pz v * pz v)
                + py v * py v); [ring | ].
  rewrite sin_cos_sqr. ring.
Qed.

Lemma rot_z_norm (a : R) (v : pt) : rdot (rot_z a v) (rot_z a v) = rdot v v.
Proof.
  unfold rdot, rot_z; cbn [px py pz].
  transitivity ((sin a * sin a + cos a * cos a)
                * (px v * px v + py v * py v)
                + pz v * pz v); [ring | ].
  rewrite sin_cos_sqr. ring.
Qed.

Lemma plane_point_rigid (c rot : pt) (x y : R) :
  rdot (rsub (plane_point c rot x y) c) (rsub (plane_point c rot x y) c)
  = x * x + y * y.
Proof.
  unfold plane_point.
  set (v := rot_z _ _).
  replace (rsub (radd c v) c) with v
    by (apply pt_eq; cbn [px py pz rsub radd]; ring).
  unfold v. rewrite rot_z_norm, rot_y_norm, rot_x_norm.
  unfold rdot; cbn [px py pz]. ring.
Qed.

(** The first three rows of the transform, applied to a homogeneous grid
    sample (x, y, 0, 1), give the rotated and translated sample. *)
Lemma transform_fin (c rot : pt) :
  exists a0 a1 a2 a3 b0 b1 b2 b3 c0 c1 c2 c3 d0 d1 d2 d3 : R,
    Plane.transform (emb c) (emb rot)
    = [ [Fin a0; Fin a1; Fin a2; Fin a3]; [Fin b0; Fin b1; Fin b2; Fin b3];
        [Fin c0; Fin c1; Fin c2; Fin c3]; [Fin d0; Fin d1; Fin d2; Fin d3] ]
    /\
    forall x y,
      a0 * x + a1 * y + a2 * 0 + a3 * 1 = px (plane_point c rot x y) /\
      b0 * x + b1 * y + b2 * 0 + b3 * 1 = py (plane_point c rot x y) /\
      c0 * x + c1 * y + c2 * 0 + c3 * 1 = pz (plane_point c rot x y).
Proof.
  unfold Plane.transform, Plane.T, Plane.Rx, Plane.Ry, Plane.Rz,
    Plane.matmul, Plane.lincomb, Plane.ladd, Plane.lscale, radians,
    emb, fin3.
  cbv zeta.
  cbn [map combine fold_left fst snd v0 v1 v2 nmul nadd nneg ncos nsin].
  do 16 eexists. split; [reflexivity | ].
  intros x y.
  unfold plane_point, rot_x, rot_y, rot_z, radd, deg. cbn [px py pz].
  repeat split; ring.
Qed.

(** X13: for finite centre, angles and scale the surface is the rigid
    image of the flat grid: the grids hold, sample by sample in row-major
    order, the coordinates of centre + Rz Ry Rx (x, y, 0), and the
    distance of every such point from the centre is that of its sample
    from the local origin, x^2 + y^2 squared, whatever the angles. *)
Theorem plane_surface_rigid (c rot : pt) (s : R) (n : Z) :
  (0 <= n)%Z ->
  exists X Y Zs,
    Plane.init (emb c) (emb rot) (Fin s) n
    = Ok (Plane.mk (emb c) (emb rot) (Fin s) n (Some (X, Y, Zs))) /\
    let P := plane_samples s (Z.to_nat n) in
    concat X = map (fun p => Fin (px (plane_point c rot (snd p) (fst p)))) P /\
    concat Y = map (fun p => Fin (py (plane_point c rot (snd p) (fst p)))) P /\
    concat Zs = map (fun p => Fin (pz (plane_point c rot (snd p) (fst p)))) P /\
    forall x y,
      rdot (rsub (plane_point c rot x y) c) (rsub (plane_point c rot x y) c)
      = x * x + y * y.
Proof.
  intros Hn. unfold Plane.init, Plane._update_geometry.
  cbn [Plane._num_points Plane._center Plane._rotation Plane._scale].
  destruct (Z.ltb_spec n 0) as [Hneg | _]; [lia | ].
  cbv zeta. set (N := Z.to_nat n).
  destruct (transform_fin c rot)
    as (a0 & a1 & a2 & a3 & b0 & b1 & b2 & b3 & c0 & c1 & c2 & c3
        & d0 & d1 & d2 & d3 & Ht & Hxyz).
  rewrite Ht, points_fin. cbv zeta.
  fold (plane_samples s N). set (P := plane_samples s N).
  assert (HP : length P = (N * N)%nat).
  { unfold P, plane_samples. rewrite length_prod, rlinspace_length.
    reflexivity. }
  unfold Plane.matmul. cbn [map]. rewrite !lincomb4_map.
  unfold Plane.reshape. rewrite !length_map, HP, Nat.eqb_refl.
  cbn [bind].
  do 3 eexists. split; [reflexivity | ].
  rewrite !(flat_grid_concat N _ P HP).
  split; [ | split; [ | split]].
  - apply map_ext. intros p. cbn [nmul nadd]. f_equal.
    apply (Hxyz (snd p) (fst p)).
  - apply map_ext. intros p. cbn [nmul nadd]. f_equal.
    apply (Hxyz (snd p) (fst p)).
  - apply map_ext. intros p. cbn [nmul nadd]. f_equal.
    apply (Hxyz (snd p) (fst p)).
  - intros x y. apply plane_point_rigid.
Qed.

Lemma plane_surface_rigid_witness :
  (0 <= 10)%Z /\
  exists X Y Zs,
    Plane.init (emb (mkp 1 2 3)) (emb (mkp 30 45 60)) (Fin 5) 10
    = Ok (Plane.mk (emb (mkp 1 2 3)) (emb (mkp 30 45 60)) (Fin 5) 10
            (Some (X, Y, Zs))) /\
    let P := plane_samples 5 (Z.to_nat 10) in
    concat X
    = map (fun p => Fin (px (plane_point (mkp 1 2 3) (mkp 30 45 60)
                               (snd p) (fst p)))) P /\
    concat Y
    = map (fun p => Fin (py (plane_point (mkp 1 2 3) (mkp 30 45 60)
                               (snd p) (fst p)))) P /\
    concat Zs
    = map (fun p => Fin (pz (plane_point (mkp 1 2 3) (mkp 30 45 60)
                               (snd p) (fst p)))) P /\
    forall x y,
      rdot (rsub (plane_point (mkp 1 2 3) (mkp 30 45 60) x y) (mkp 1 2 3))
        (rsub (plane_point (mkp 1 2 3) (mkp 30 45 60) x y) (mkp 1 2 3))
      = x * x + y * y.
Proof.
  split; [lia | ].
  apply (plane_surface_rigid (mkp 1 2 3) (mkp 30 45 60) 5 10). lia.
Defined.

(** ** Projection on finite data *)

Lemma projected_points_rpixel (c : Camera) (r u pc : pt) (qs : list pt) :
  _right c = Some (emb r) -> _up c = emb u -> _position c = emb pc ->
  projected_points c (map emb qs)
  = Ok (map (fun q => (Fin (fst (rpixel r u pc q)),
                       Fin (snd (rpixel r u pc q)))) qs).
Proof.
  intros Hr Hu Hp. unfold projected_points. rewrite Hr, Hu, Hp. cbv zeta.
  f_equal. rewrite map_map. apply map_ext. intros q.
  rewrite project_vertex_spec. apply spec_project_finite.
Qed.

(** X14: with a finite right, up and position, every finite world point is
    projected to a finite pixel.  The divisor is the depth raised to at
    least 0.1, so the projection never divides by zero and never yields
    NaN or an infinity, also for points behind the camera. *)
Theorem projected_points_finite (c : Camera) (r u pc : pt) (qs : list pt) :
  _right c = Some (emb r) -> _up c = emb u -> _position c = emb pc ->
  exists pixels : list (R * R),
    projected_points c (map emb qs)
    = Ok (map (fun xy => (Fin (fst xy), Fin (snd xy))) pixels) /\
    length pixels = length qs /\
    pixels
    = map (fun q =>
             let T := rtransformed r u pc q in
             let z := if Rlt_dec (pz T) (1 / 10) then 1 / 10 else pz T in
             (800 * (px T / z) + 320, 800 * (py T / z) + 240)) qs /\
    Forall (fun q =>
              1 / 10 <= (if Rlt_dec (pz (rtransformed r u pc q)) (1 / 10)
                         then 1 / 10 else pz (rtransformed r u pc q))) qs.
Proof.
  intros Hr Hu Hp.
  exists (map (rpixel r u pc) qs).
  split; [ | split; [ | split]].
  - rewrite (projected_points_rpixel c r u pc qs Hr Hu Hp), map_map.
    reflexivity.
  - apply length_map.
  - reflexivity.
  - apply Forall_forall. intros q _.
    destruct (Rlt_dec (pz (rtransformed r u pc q)) (1 / 10)); lra.
Qed.

Lemma projected_points_finite_witness :
  exists pixels : list (R * R),
    projected_points
      (mkCamera (fin3 0 (-3) 0) (fin3 0 0 1) default_size
         (Some (fin3 0 1 0)) (Some (fin3 1 0 0)) None)
      (map emb [mkp 1 1 1; mkp 0 0 (-2)])
    = Ok (map (fun xy => (Fin (fst xy), Fin (snd xy))) pixels) /\
    length pixels = length [mkp 1 1 1; mkp 0 0 (-2)] /\
    pixels
    = map (fun q =>
             let T := rtransformed (mkp 1 0 0) (mkp 0 0 1) (mkp 0 (-3) 0) q in
             let z := if Rlt_dec (pz T) (1 / 10) then 1 / 10 else pz T in
             (800 * (px T / z) + 320, 800 * (py T / z) + 240))
        [mkp 1 1 1; mkp 0 0 (-2)] /\
    Forall (fun q =>
              1 / 10 <=
              (if Rlt_dec
                    (pz (rtransformed (mkp 1 0 0) (mkp 0 0 1) (mkp 0 (-3) 0) q))
                    (1 / 10)
               then 1 / 10
               else pz (rtransformed (mkp 1 0 0) (mkp 0 0 1) (mkp 0 (-3) 0) q)))
      [mkp 1 1 1; mkp 0 0 (-2)].
Proof.
  apply (projected_points_finite
           (mkCamera (fin3 0 (-3) 0) (fin3 0 0 1) default_size
              (Some (fin3 0 1 0)) (Some (fin3 1 0 0)) None)
           (mkp 1 0 0) (mkp 0 0 1) (mkp 0 (-3) 0)
           [mkp 1 1 1; mkp 0 0 (-2)]); reflexivity.
Defined.

Lemma rtransformed_self (r u pc : pt) : rtransformed r u pc pc = rzero.
Proof.
  apply pt_eq; unfold rtransformed; cbv zeta; cbn [px py pz rzero]; ring.
Qed.

(** X15: the camera's own position is projected to the principal point
    (320, 240), whatever the finite basis and position: it transforms to
    the origin, the zero depth is raised to 0.1, and 0 / 0.1 = 0. *)
Theorem camera_position_projects_to_principal_point
  (c : Camera) (r u pc : pt) :
  _right c = Some (emb r) -> _up c = emb u -> _position c = emb pc ->
  projected_points c [_position c] = Ok [(Fin 320, Fin 240)].
Proof.
  intros Hr Hu Hp.
  rewrite Hp at 1.
  change [emb pc] with (map emb [pc]).
  rewrite (projected_points_rpixel c r u pc [pc] Hr Hu Hp).
  cbn [map]. unfold rpixel. cbv zeta. rewrite rtransformed_self.
  cbn [px py pz rzero fst snd]. unfold rclamp.
  destruct (Rlt_dec 0 (1 / 10)) as [_ | H]; [ | lra].
  do 3 f_equal; f_equal; field.
Qed.

Lemma camera_position_projects_to_principal_point_witness :
  projected_points
    (mkCamera (fin3 0 (-3) 0) (fin3 0 0 1) default_size
       (Some (fin3 0 1 0)) (Some (fin3 1 0 0)) None)
    [_position
       (mkCamera (fin3 0 (-3) 0) (fin3 0 0 1) default_size
          (Some (fin3 0 1 0)) (Some (fin3 1 0 0)) None)]
  = Ok [(Fin 320, Fin 240)].
Proof.
  apply (camera_position_projects_to_principal_point
           (mkCamera (fin3 0 (-3) 0) (fin3 0 0 1) default_size
              (Some (fin3 0 1 0)) (Some (fin3 1 0 0)) None)
           (mkp 1 0 0) (mkp 0 0 1) (mkp 0 (-3) 0)); reflexivity.
Defined.

Lemma rtransformed_shift (r u pc q t : pt) :
  rtransformed r u (radd pc t) (radd q t) = rtransformed r u pc q.
Proof.
  apply pt_eq; unfold rtransformed; cbv zeta; cbn [px py pz radd]; ring.
Qed.

(** X16: the projection depends only on the offset of a point from the
    camera: moving the camera and the points by the same finite vector,
    with the same right and up, gives the same pixels. *)
Theorem projection_translation_invariant
  (c c' : Camera) (r u pc t : pt) (qs : list pt) :
  _right c = Some (emb r) -> _up c = emb u -> _position c = emb pc ->
  _right c' = Some (emb r) -> _up c' = emb u ->
  _position c' = emb (radd pc t) ->
  projected_points c' (map (fun q => emb (radd q t)) qs)
  = projected_points c (map emb qs).
Proof.
  intros Hr Hu Hp Hr' Hu' Hp'.
  rewrite <- (map_map (fun q => radd q t) emb).
  rewrite (projected_points_rpixel c' r u (radd pc t) _ Hr' Hu' Hp').
  rewrite (projected_points_rpixel c r u pc qs Hr Hu Hp).
  rewrite map_map. f_equal. apply map_ext. intros q.
  unfold rpixel. cbv zeta. rewrite rtransformed_shift. reflexivity.
Qed.

Lemma projection_translation_invariant_witness :
  projected_points
    (mkCamera (emb (radd (mkp 0 (-3) 0) (mkp 1 1 1))) (fin3 0 0 1)
       default_size (Some (fin3 0 1 0)) (Some (fin3 1 0 0)) None)
    (map (fun q => emb (radd q (mkp 1 1 1))) [mkp 1 1 1; mkp 0 0 (-2)])
  = projected_points
      (mkCamera (fin3 0 (-3) 0) (fin3 0 0 1) default_size
         (Some (fin3 0 1 0)) (Some (fin3 1 0 0)) None)
      (map emb [mkp 1 1 1; mkp 0 0 (-2)]).
Proof.
  apply (projection_translation_invariant
           (mkCamera (fin3 0 (-3) 0) (fin3 0 0 1) default_size
              (Some (fin3 0 1 0)) (Some (fin3 1 0 0)) None)
           (mkCamera (emb (radd (mkp 0 (-3) 0) (mkp 1 1 1))) (fin3 0 0 1)
              default_size (Some (fin3 0 1 0)) (Some (fin3 1 0 0)) None)
           (mkp 1 0 0) (mkp 0 0 1) (mkp 0 (-3) 0) (mkp 1 1 1)
           [mkp 1 1 1; mkp 0 0 (-2)]); reflexivity.
Defined.

(** ** Where the camera looks *)




(** ** Updates that fail *)

(** On arrays of shape (3,) the position setter on objects is the typed
    one. *)
Lemma obj_set_position_typed (c : Camera) (value : vec3) :
  exists c',
    set_position c value = Ok c' /\
    obj_set_position (to_obj c) [v0 value; v1 value; v2 value]
    = (to_obj c', Returned).
Proof.
  unfold set_position, obj_set_position, _update_camera, obj_update_camera,
    to_obj.
  cbn [_direction _up _position _size _right _vertices
       obj_direction obj_up obj_position obj_size obj_right obj_vertices].
  destruct (_direction c) as [d | ].
  - unfold _update_vertices, obj_update_vertices.
    cbn [_direction _up _position _size _right _vertices
         obj_direction obj_up obj_position obj_size obj_right obj_vertices
         broadcast_add stack_row bind].
    eexists. split; [reflexivity | ].
    cbn [_direction _up _position _size _right _vertices].
    destruct value as [x y z]. reflexivity.
  - eexists. split; [reflexivity | ].
    cbn [_direction _up _position _size _right _vertices].
    reflexivity.
Qed.

Lemma broadcast_add_ill_shaped (a : list num) (b : vec3) :
  length a <> 3%nat -> length a <> 1%nat ->
  broadcast_add a b = Raise ValueError.
Proof.
  intros H3 H1.
  destruct a as [ | x [ | y [ | z [ | w a]]]]; cbn [length] in H3, H1;
    try reflexivity; exfalso; auto.
Qed.

Lemma obj_set_position_ill_shaped (o : CameraObj) (d : vec3)
  (value : list num) :
  obj_direction o = Some d ->
  length value <> 3%nat -> length value <> 1%nat ->
  let r := vdivs (vcross d (obj_up o)) (vnorm (vcross d (obj_up o))) in
  let u := vdivs (vcross r d) (vnorm (vcross r d)) in
  obj_set_position o value
  = (mkObj value u (obj_size o) (Some d) (Some r) (obj_vertices o),
     Raised ValueError).
Proof.
  intros Hd H3 H1 r u.
  unfold obj_set_position, obj_update_camera.
  cbn [obj_direction obj_up obj_position obj_size obj_right obj_vertices].
  rewrite Hd. cbv zeta. fold r. fold u.
  unfold obj_update_vertices.
  cbn [obj_direction obj_up obj_position obj_size obj_right obj_vertices].
  cbv zeta. rewrite (broadcast_add_ill_shaped value _ H3 H1).
  reflexivity.
Qed.

(** C6, as stated, fails: the camera at the origin aimed along the y axis
    is assigned the two-element position [1, 2].  The call raises
    [ValueError] while the vertices are rebuilt, and by then the object has
    changed: its position is [1, 2], no longer (0, 0, 0), and the vertices
    are still those of the old position. *)
Lemma failed_position_update_changes_state :
  exists c1 o',
    look_at origin_camera (fin3 0 1 0) = Ok c1 /\
    obj_position (to_obj c1) = [Fin 0; Fin 0; Fin 0] /\
    obj_set_position (to_obj c1) [Fin 1; Fin 2] = (o', Raised ValueError) /\
    obj_position o' = [Fin 1; Fin 2] /\
    obj_vertices o' = obj_vertices (to_obj c1) /\
    o' <> to_obj c1.
Proof.
  destruct look_at_y_axis as (c1 & H1 & Hd & Hr & Hu).
  pose proof H1 as Hk. unfold look_at in Hk.
  apply update_camera_keeps in Hk. destruct Hk as (Hp & _ & _).
  cbn [_position origin_camera Camera_init] in Hp.
  assert (Hpo : obj_position (to_obj c1) = [Fin 0; Fin 0; Fin 0]).
  { unfold to_obj; cbn [obj_position]. rewrite Hp. reflexivity. }
  exists c1. eexists.
  split; [exact H1 | ]. split; [exact Hpo | ].
  split.
  { apply (obj_set_position_ill_shaped (to_obj c1) (fin3 0 1 0)).
    - exact Hd.
    - cbn [length]; lia.
    - cbn [length]; lia. }
  split; [reflexivity | ]. split; [reflexivity | ].
  intros E. apply (f_equal obj_position) in E.
  rewrite Hpo in E. cbn [obj_position] in E. discriminate E.
Qed.

(** C6, amended: the update operations do not roll back.  Assigning to the
    position of a camera with a defined direction a one-dimensional array
    of 0, 2 or more than 3 components fails, with [ValueError] raised
    while the vertices are rebuilt, only after the new position has been
    stored and right and up have been recomputed; direction, size and
    vertices keep their previous values.  Assigning an array of 3
    components never fails and is the typed position setter. *)
Theorem position_update_fails_after_mutation
  (o : CameraObj) (d : vec3) (value : list num) :
  obj_direction o = Some d ->
  length value <> 3%nat -> length value <> 1%nat ->
  (exists o',
      obj_set_position o value = (o', Raised ValueError) /\
      obj_position o' = value /\
      obj_right o'
      = Some (vdivs (vcross d (obj_up o)) (vnorm (vcross d (obj_up o)))) /\
      (forall r, obj_right o' = Some r ->
                 obj_up o' = vdivs (vcross r d) (vnorm (vcross r d))) /\
      obj_direction o' = Some d /\ obj_size o' = obj_size o /\
      obj_vertices o' = obj_vertices o) /\
  (forall c v, exists c',
      set_position c v = Ok c' /\
      obj_set_position (to_obj c) [v0 v; v1 v; v2 v]
      = (to_obj c', Returned)).
Proof.
  intros Hd H3 H1. split; [ | exact obj_set_position_typed].
  eexists. split; [exact (obj_set_position_ill_shaped o d value Hd H3 H1) | ].
  cbn [obj_position obj_right obj_up obj_direction obj_size obj_vertices].
  repeat split.
  intros r Hr. injection Hr as <-. reflexivity.
Qed.

Lemma position_update_fails_after_mutation_witness :
  obj_direction (to_obj (aimed (fin3 0 0 0) default_size
                           (mkp 0 1 0) (mkp 1 0 0)))
  = Some (fin3 0 1 0) /\
  length [Fin 1; Fin 2] <> 3%nat /\ length [Fin 1; Fin 2] <> 1%nat /\
  (exists o',
      obj_set_position
        (to_obj (aimed (fin3 0 0 0) default_size (mkp 0 1 0) (mkp 1 0 0)))
        [Fin 1; Fin 2]
      = (o', Raised ValueError) /\
      obj_position o' = [Fin 1; Fin 2] /\
      obj_right o'
      = Some (vdivs
                (vcross (fin3 0 1 0)
                   (obj_up (to_obj (aimed (fin3 0 0 0) default_size
                                      (mkp 0 1 0) (mkp 1 0 0)))))
                (vnorm
                   (vcross (fin3 0 1 0)
                      (obj_up (to_obj (aimed (fin3 0 0 0) default_size
                                         (mkp 0 1 0) (mkp 1 0 0))))))) /\
      (forall r, obj_right o' = Some r ->
                 obj_up o'
                 = vdivs (vcross r (fin3 0 1 0))
                     (vnorm (vcross r (fin3 0 1 0)))) /\
      obj_direction o' = Some (fin3 0 1 0) /\
      obj_size o'
      = obj_size (to_obj (aimed (fin3 0 0 0) default_size
                            (mkp 0 1 0) (mkp 1 0 0))) /\
      obj_vertices o'
      = obj_vertices (to_obj (aimed (fin3 0 0 0) default_size
                                (mkp 0 1 0) (mkp 1 0 0)))) /\
  (forall c v, exists c',
      set_position c v = Ok c' /\
      obj_set_position (to_obj c) [v0 v; v1 v; v2 v]
      = (to_obj c', Returned)).
Proof.
  split; [reflexivity | ].
  split; [cbn [length]; lia | ]. split; [cbn [length]; lia | ].
  apply (position_update_fails_after_mutation
           (to_obj (aimed (fin3 0 0 0) default_size (mkp 0 1 0) (mkp 1 0 0)))
           (fin3 0 1 0) [Fin 1; Fin 2]).
  - reflexivity.
  - cbn [length]; lia.
  - cbn [length]; lia.
Defined.
